(** * web_responders: response rendering and input-error collection

    A shallow embedding of the Go package [web_responders]
    (CreateResponse and its helpers, ResponseTag, addInputErrors and
    RespondWithInputErrors) together with the properties its
    specification states about them.

    Go values are seen the way the package sees them, through
    [reflect]: a dynamic type name, the method set of that type and a
    structural kind.  Panics are an explicit outcome, and calls of the
    methods a value exposes are recorded in a trace. *)

From Stdlib Require Import String Ascii ZArith List Bool Lia.
From stdpp Require Import gmap strings list fin_maps.

Set Warnings "-register-all".

Open Scope string_scope.
Open Scope list_scope.

(** ** Association lists with string keys

    A Go [map[string]T] under construction: [alist_set] is [m[k] = v],
    [alist_delete] is [delete(m, k)], [alist_lookup] is [m[k]] with
    its [ok] flag. *)

Section AList.
Context {A : Type}.

Fixpoint alist_lookup (k : string) (m : list (string * A)) : option A :=
  match m with
  | [] => None
  | (k', v) :: rest => if String.eqb k k' then Some v else alist_lookup k rest
  end.

Fixpoint alist_set (k : string) (v : A) (m : list (string * A)) : list (string * A) :=
  match m with
  | [] => [(k, v)]
  | (k', v') :: rest =>
      if String.eqb k k' then (k, v) :: rest else (k', v') :: alist_set k v rest
  end.

Fixpoint alist_delete (k : string) (m : list (string * A)) : list (string * A) :=
  match m with
  | [] => []
  | (k', v') :: rest =>
      if String.eqb k k' then alist_delete k rest else (k', v') :: alist_delete k rest
  end.

Definition alist_has (k : string) (m : list (string * A)) : bool :=
  match alist_lookup k m with Some _ => true | None => false end.
End AList.

(** ** The options tree (objx.Map)

    The data held by an [objx.Value]: a string, a
    [map[string]interface{}], an [objx.Map], nil, or anything else.
    Selectors are plain keys (no [.] path and no [[i]] index). *)

Inductive optval : Type :=
| OptNil
| OptStr (s : string)
| OptMSI (m : list (string * optval))
| OptObjx (m : list (string * optval))
| OptOther.

(** An [objx.Map] variable; [None] is the nil map. *)
Definition options : Type := option (list (string * optval)).

(** [options.Get(k)]: the [*objx.Value] is never a nil pointer, its
    data is nil when the key is missing. *)
Definition Get (o : options) (k : string) : optval :=
  match o with
  | None => OptNil
  | Some m => match alist_lookup k m with Some v => v | None => OptNil end
  end.

Definition optval_IsNil (v : optval) : bool :=
  match v with OptNil => true | _ => false end.

(** [options.Has(k)]: false on the nil map, otherwise whether the data
    under [k] is not nil. *)
Definition Has (o : options) (k : string) : bool :=
  match o with
  | None => false
  | Some _ => negb (optval_IsNil (Get o k))
  end.

(** [v.Str()]: the string, or the empty string for any other data. *)
Definition Str (v : optval) : string :=
  match v with OptStr s => s | _ => "" end.

Definition options_is_nil (o : options) : bool :=
  match o with None => true | Some _ => false end.

(** [options.Get("type").Str() != "full"], negated. *)
Definition fullMode (o : options) : bool := String.eqb (Str (Get o "type")) "full".

(** ** Go values as reflection shows them *)

(** [reflect.StructField]: the parts the package reads.  [Tag] is the
    struct tag as the conventional [key:"value"] pairs, in order. *)
Record StructField : Type := mkField {
  Name : string;
  Anonymous : bool;
  Tag : list (string * string)
}.

(** [field.Tag.Get(key)]: the value of the first pair with that key,
    the empty string when there is none. *)
Definition TagGet (f : StructField) (key : string) : string :=
  match alist_lookup key (Tag f) with Some v => v | None => "" end.

(** The element type of a map type: [interface{}] takes every value,
    a concrete type takes the values of exactly that dynamic type. *)
Inductive elemtype : Type :=
| ElemInterface
| ElemConcrete (tname : string).

Record maptype : Type := mkMapType {
  key_is_string : bool;    (* the key type is exactly [string] *)
  elem : elemtype
}.

(** The method set of a dynamic type, with what each method returns
    on this value.  [LazyLoad] mutates its receiver: the model gives
    the value as it is after the call. *)
Record methods (V : Type) : Type := mkMethods {
  LazyLoad : option (options -> V);       (* LazyLoader: the value once loaded *)
  ResponseObject : option V;              (* ResponseObjectCreator *)
  ResponseValue : option (options -> V);  (* ResponseValueCreator *)
  String_ : option string;                (* fmt.Stringer *)
  Error_ : option string                  (* error *)
}.
Arguments mkMethods {V}.
Arguments LazyLoad {V}.
Arguments ResponseObject {V}.
Arguments ResponseValue {V}.
Arguments String_ {V}.
Arguments Error_ {V}.

Inductive shape (V : Type) : Type :=
| KBool (b : bool)
| KInt (z : Z)
| KString (s : string)
| KStruct (fields : list (StructField * V))
| KSlice (elems : list V)                      (* slice or array *)
| KMap (mt : maptype) (entries : list (string * V))
| KPtr (target : option V)                     (* [None]: nil pointer *)
| KOther.                                      (* func, chan, ... *)
Arguments KBool {V}.
Arguments KInt {V}.
Arguments KString {V}.
Arguments KStruct {V}.
Arguments KSlice {V}.
Arguments KMap {V}.
Arguments KPtr {V}.
Arguments KOther {V}.

(** An [interface{}]: nil, or a value with its dynamic type's name,
    that type's method set and its contents. *)
Inductive value : Type :=
| VNil
| Val (tname : string) (ms : methods value) (body : shape value).

Definition noMethods : methods value := mkMethods None None None None None.

Definition methodsOf (v : value) : methods value :=
  match v with
  | VNil => noMethods
  | Val _ ms _ => ms
  end.

(** The caller's constructor callback; [None] is the nil func. *)
Definition constructor : Type := option (value -> value -> value).

(** ** Effects: method calls are traced, panics end the run *)

Inductive event : Type :=
| EvLazyLoad (v : value) (o : options)
| EvResponseObject (v : value)
| EvResponseValue (v : value) (o : options)
| EvString (v : value)
| EvError (v : value)
| EvConstructor (rendered original : value).

Inductive outcome (A : Type) : Type :=
| Ok (a : A)
| Panic (msg : string).
Arguments Ok {A}.
Arguments Panic {A}.

#[projections(primitive)] Record M (A : Type) : Type := mkM { trace : list event; result : outcome A }.
Arguments mkM {A}.
Arguments trace {A}.
Arguments result {A}.

Definition ret {A} (a : A) : M A := mkM [] (Ok a).
Definition panic {A} (msg : string) : M A := mkM [] (Panic msg).
Definition emit (e : event) : M unit := mkM [e] (Ok tt).

Definition bindM {A B} (m : M A) (k : A -> M B) : M B :=
  match result m with
  | Ok a => let r := k a in mkM (trace m ++ trace r) (result r)
  | Panic msg => mkM (trace m) (Panic msg)
  end.

Notation "'do' x <~ m 'in' k" := (bindM m (fun x => k))
  (at level 10, x name, m at level 100, k at level 200).
Notation "'run' m 'in' k" := (bindM m (fun _ => k))
  (at level 10, m at level 100, k at level 200).

(** ** Strings: the [strings] and [unicode] functions the package calls *)

(** [unicode.IsUpper(rune(b))] for a byte [b]: the upper-case letters
    of Latin-1. *)
Definition IsUpper (b : ascii) : bool :=
  let n := nat_of_ascii b in
  (Nat.leb 65 n && Nat.leb n 90) || (Nat.leb 192 n && Nat.leb n 214)
  || (Nat.leb 216 n && Nat.leb n 222).

Definition lowerByte (b : ascii) : ascii :=
  let n := nat_of_ascii b in
  if Nat.leb 65 n && Nat.leb n 90 then ascii_of_nat (n + 32) else b.

(** [strings.ToLower] on identifiers written in ASCII (other bytes are
    left as they are). *)
Fixpoint ToLower (s : string) : string :=
  match s with
  | EmptyString => EmptyString
  | String b rest => String (lowerByte b) (ToLower rest)
  end.

(** [strings.HasPrefix(s, p)]. *)
Definition HasPrefix (s p : string) : bool := String.prefix p s.

(** [s[n:]], for [n] at most the length of [s]. *)
Definition dropPrefix (n : nat) (s : string) : string :=
  String.substring n (String.length s - n) s.

(** [unicode.IsUpper(rune(name[0]))]; a field name is never empty. *)
Definition exported (name : string) : bool :=
  match name with
  | EmptyString => false
  | String b _ => IsUpper b
  end.

(** database/sql has nullable values which all have the same prefix. *)
Definition SqlNullablePrefix : string := "Null".

(** ** ResponseTag *)

Definition ResponseTag (field : StructField) : string :=
  let name := TagGet field "response" in
  if negb (String.eqb name "") then name
  else
    let name := TagGet field "db" in
    if negb (String.eqb (Name field) "Id") && (negb (String.eqb name "") && negb (String.eqb name "-"))
    then name
    else ToLower (Name field).

(** ** createNullableDbResponse

    [value.FieldByName(n)] is the field of that name among the
    struct's own fields; the fields that Go promotes from embedded
    structs are not searched.  The result [Some v] is the pair
    [(v, nil)] of the source, [None] the error "No Nullable DB value
    found". *)

Definition FieldByName (n : string) (fields : list (StructField * value))
  : option (StructField * value) :=
  List.find (fun fv => String.eqb (Name (fst fv)) n) fields.

(** [v.Interface()] on a field: panics when the field is not exported. *)
Definition fieldInterface (fv : StructField * value) : M value :=
  if exported (Name (fst fv)) then ret (snd fv)
  else panic "reflect.Value.Interface: cannot return value obtained from unexported field or method".

(** [x.(bool)] *)
Definition assertBool (v : value) : M bool :=
  match v with
  | Val tn _ (KBool b) =>
      if String.eqb tn "bool" then ret b
      else panic "interface conversion: interface {} is not bool"
  | _ => panic "interface conversion: interface {} is not bool"
  end.

Definition createNullableDbResponse (typeName : string) (fields : list (StructField * value))
  : M (option value) :=
  if HasPrefix typeName SqlNullablePrefix then
    let fieldName := dropPrefix (String.length SqlNullablePrefix) typeName in
    match FieldByName fieldName fields, FieldByName "Valid" fields with
    | Some val, Some isNotNil =>
        do i <~ fieldInterface isNotNil in
        do b <~ assertBool i in
        if b then (do v <~ fieldInterface val in ret (Some v))
        else ret (Some VNil)
    | _, _ => ret None
    end
  else ret None.

(** ** Narrowing the options for a child *)

(** The [IsMSI] / [IsObjxMap] / panic chain on a non-nil [*objx.Value]. *)
Definition optionToMap (v : optval) : M options :=
  match v with
  | OptMSI m => ret (Some m)
  | OptObjx m => ret (Some m)
  | _ => panic "Don't know what to do with option"
  end.

(** createStructResponse, lines 205-220: the sub-options of field [name]. *)
Definition structSubOptions (o : options) (name : string) : M options :=
  if negb (options_is_nil o) && (Has o name || Has o "*") then
    optionToMap (if Has o name then Get o name else Get o "*")
  else ret None.

(** createMapResponse, lines 127-143: [elementOptionsValue] starts as
    a nil pointer and is only assigned when the key or ["*"] is there;
    [IsMSI] on the nil pointer reads through it. *)
Definition mapElementOptions (o : options) (keyStr : string) : M options :=
  if negb (options_is_nil o) then
    let elementOptionsValue : option optval :=
      if Has o keyStr then Some (Get o keyStr)
      else if Has o "*" then Some (Get o "*")
      else None in
    match elementOptionsValue with
    | Some v => optionToMap v
    | None => panic "runtime error: invalid memory address or nil pointer dereference"
    end
  else ret None.

(** ** The capability checks *)

Definition goString (s : string) : value := Val "string" noMethods (KString s).

(** The body of createResponseValue; [structural] is the call
    [createResponse(value.Interface(), true, options, constructor)]. *)
Definition dispatchValue (structural : M value) (v : value) (o : options) : M value :=
  if negb (fullMode o) then
    match ResponseValue (methodsOf v), String_ (methodsOf v), Error_ (methodsOf v) with
    | Some f, _, _ => run emit (EvResponseValue v o) in ret (f o)
    | None, Some s, _ => run emit (EvString v) in ret (goString s)
    | None, None, Some e => run emit (EvError v) in ret (goString e)
    | None, None, None => structural
    end
  else structural.

(** The first lines of CreateResponse; [rest] is what follows them. *)
Definition errorShortCircuit (rest : M value) (data : value) : M value :=
  match Error_ (methodsOf data) with
  | Some msg => run emit (EvError data) in ret (goString msg)
  | None => rest
  end.

(** ** The loops over fields, elements and entries *)

Definition objxMapType : maptype := mkMapType true ElemInterface.

(** A fresh [objx.Map] holding [m]. *)
Definition objxMapValue (m : list (string * value)) : value :=
  Val "objx.Map" noMethods (KMap objxMapType m).

(** [x.(objx.Map)] *)
Definition assertObjxMap (v : value) : M (list (string * value)) :=
  match v with
  | Val tn _ (KMap _ m) =>
      if String.eqb tn "objx.Map" then ret m
      else panic "interface conversion: interface {} is not objx.Map"
  | _ => panic "interface conversion: interface {} is not objx.Map"
  end.

(** Lines 193-198: keys of the embedded response go in unless the
    response has them already. *)
Fixpoint mergeEmbedded (embeddedResponse response : list (string * value))
  : list (string * value) :=
  match embeddedResponse with
  | [] => response
  | (key, v) :: rest =>
      mergeEmbedded rest (if alist_has key response then response else alist_set key v response)
  end.

(** [response.SetMapIndex(key, reflect.ValueOf(item))]: the zero Value
    (from a nil [item]) deletes the key, a value that the element type
    does not take panics. *)
Definition SetMapIndex (mt : maptype) (key : string) (item : value)
    (response : list (string * value)) : M (list (string * value)) :=
  match item with
  | VNil => ret (alist_delete key response)
  | Val tn _ _ =>
      match elem mt with
      | ElemInterface => ret (alist_set key item response)
      | ElemConcrete t =>
          if String.eqb tn t then ret (alist_set key item response)
          else panic "reflect.Value.SetMapIndex: value is not assignable to the element type"
      end
  end.

Section Loops.
(** [CreateResponse(v, options, constructor)] and
    [createResponseValue(v, o, constructor)], at the options and
    constructor of the enclosing call. *)
Variable renderEmbedded : value -> M value.
Variable renderValue : value -> options -> M value.

(** createStructResponse, the loop of lines 187-224.  Field names are
    taken to be ASCII identifiers, for which the byte test of line 199
    is Go's own test for an exported field. *)
Fixpoint structLoop (fields : list (StructField * value)) (o : options)
    (response : list (string * value)) : M (list (string * value)) :=
  match fields with
  | [] => ret response
  | (fieldType, fieldValue) :: rest =>
      if Anonymous fieldType then
        (* fieldValue.Interface() *)
        run fieldInterface (fieldType, fieldValue) in
        do r <~ renderEmbedded fieldValue in
        do embeddedResponse <~ assertObjxMap r in
        structLoop rest o (mergeEmbedded embeddedResponse response)
      else if exported (Name fieldType) then
        let name := ResponseTag fieldType in
        if String.eqb name "-" then structLoop rest o response
        else
          do subOptions <~ structSubOptions o name in
          do r <~ renderValue fieldValue subOptions in
          structLoop rest o (alist_set name r response)
      else structLoop rest o response
  end.

Definition structBody (typeName : string) (fields : list (StructField * value))
    (o : options) : M value :=
  do n <~ createNullableDbResponse typeName fields in
  match n with
  | Some v => ret v
  | None => do response <~ structLoop fields o [] in ret (objxMapValue response)
  end.

(** createSliceResponse. *)
Fixpoint sliceLoop (elems : list value) (o : options) (response : list value)
  : M (list value) :=
  match elems with
  | [] => ret response
  | element :: rest =>
      do r <~ renderValue element o in
      sliceLoop rest o (response ++ [r])
  end.

Definition sliceBody (elems : list value) (o : options) : M value :=
  do response <~ sliceLoop elems o [] in
  ret (Val "[]interface {}" noMethods (KSlice response)).

(** createMapResponse; the entries are visited in the order of
    [value.MapKeys()]. *)
Fixpoint mapLoop (mt : maptype) (entries : list (string * value)) (o : options)
    (response : list (string * value)) : M (list (string * value)) :=
  match entries with
  | [] => ret response
  | (key, v) :: rest =>
      if key_is_string mt then
        do elementOptions <~ mapElementOptions o key in
        do itemResponse <~ renderValue v elementOptions in
        do response' <~ SetMapIndex mt key itemResponse response in
        mapLoop mt rest o response'
      else panic "interface conversion: interface {} is not string"
  end.

Definition mapBody (tn : string) (ms : methods value) (mt : maptype)
    (entries : list (string * value)) (o : options) : M value :=
  do response <~ mapLoop mt entries o [] in
  ret (Val tn ms (KMap mt response)).
End Loops.

(** ** createResponse *)

Definition lazyLoadEvents (data : value) (o : options) : M unit :=
  match LazyLoad (methodsOf data) with
  | Some _ => emit (EvLazyLoad data o)
  | None => ret tt
  end.

Definition responseObjectEvents (data : value) : M unit :=
  match ResponseObject (methodsOf data) with
  | Some _ => emit (EvResponseObject data)
  | None => ret tt
  end.

(** [constructor(data, value)]; calling the nil func panics. *)
Definition callConstructor (c : constructor) (data original : value) : M value :=
  match c with
  | Some f => run emit (EvConstructor data original) in ret (f data original)
  | None => panic "runtime error: invalid memory address or nil pointer dereference"
  end.

Fixpoint createResponse (data : value) (isSubResponse : bool) (o : options)
    (c : constructor) {struct data} : M value :=
  (* LazyLoad with options: [loaded] is [data] after the call *)
  let loaded :=
    match data with
    | Val _ ms _ => match LazyLoad ms with Some f => f o | None => data end
    | VNil => data
    end in
  let responseData :=
    match loaded with
    | Val _ ms _ => match ResponseObject ms with Some r => r | None => loaded end
    | VNil => loaded
    end in
  (* value := reflect.ValueOf(responseData), through one pointer *)
  let value :=
    match responseData with
    | Val _ _ (KPtr (Some target)) => target
    | _ => responseData
    end in
  run lazyLoadEvents data o in
  run responseObjectEvents loaded in
  match value with
  | Val tn _ (KStruct fields) =>
      structBody
        (fun v => errorShortCircuit (createResponse v false o c) v)
        (fun v o' => dispatchValue (createResponse v true o' c) v o')
        tn fields o
  | Val _ _ (KSlice elems) =>
      do r <~ sliceBody (fun v o' => dispatchValue (createResponse v true o' c) v o') elems o in
      if negb (options_is_nil o) && isSubResponse then callConstructor c r value
      else ret r
  | Val tn ms (KMap mt entries) =>
      mapBody (fun v o' => dispatchValue (createResponse v true o' c) v o') tn ms mt entries o
  | _ => ret responseData
  end.

(** ** createResponseValue, CreateResponse and the three helpers *)

Definition createResponseValue (v : value) (o : options) (c : constructor) : M value :=
  dispatchValue (createResponse v true o c) v o.

(** An element of the variadic [optionList ...interface{}]. *)
Inductive optarg : Type :=
| ArgOptions (o : options)
| ArgConstructor (c : constructor)
| ArgOther.

Definition assertConstructor (a : optarg) : M constructor :=
  match a with
  | ArgConstructor c => ret c
  | _ => panic "interface conversion: interface {} is not func(interface {}, interface {}) interface {}"
  end.

Definition assertOptions (a : optarg) : M options :=
  match a with
  | ArgOptions o => ret o
  | _ => panic "interface conversion: interface {} is not objx.Map"
  end.

Definition CreateResponse (data : value) (optionList : list optarg) : M value :=
  errorShortCircuit
    (match optionList with
     | [a0; a1] =>
         do c <~ assertConstructor a1 in
         do o <~ assertOptions a0 in
         createResponse data false o c
     | [a0] =>
         do o <~ assertOptions a0 in
         createResponse data false o None
     | _ => createResponse data false None None
     end)
    data.

Definition createStructResponse (typeName : string) (fields : list (StructField * value))
    (o : options) (c : constructor) : M value :=
  structBody
    (fun v => CreateResponse v [ArgOptions o; ArgConstructor c])
    (fun v o' => createResponseValue v o' c)
    typeName fields o.

Definition createSliceResponse (elems : list value) (o : options) (c : constructor)
  : M value :=
  sliceBody (fun v o' => createResponseValue v o' c) elems o.

Definition createMapResponse (tn : string) (ms : methods value) (mt : maptype)
    (entries : list (string * value)) (o : options) (c : constructor) : M value :=
  mapBody (fun v o' => createResponseValue v o' c) tn ms mt entries o.

(** What createResponse does before the switch on the kind. *)
Definition loadedValue (data : value) (o : options) : value :=
  match LazyLoad (methodsOf data) with
  | Some f => f o
  | None => data
  end.

Definition substituted (loaded : value) : value :=
  match ResponseObject (methodsOf loaded) with
  | Some r => r
  | None => loaded
  end.

Definition derefOnce (responseData : value) : value :=
  match responseData with
  | Val _ _ (KPtr (Some target)) => target
  | _ => responseData
  end.

(** The switch of lines 77-89. *)
Definition kindSwitch (responseData val : value) (isSubResponse : bool)
    (o : options) (c : constructor) : M value :=
  match val with
  | Val tn _ (KStruct fields) => createStructResponse tn fields o c
  | Val _ _ (KSlice elems) =>
      do r <~ createSliceResponse elems o c in
      if negb (options_is_nil o) && isSubResponse then callConstructor c r val
      else ret r
  | Val tn ms (KMap mt entries) => createMapResponse tn ms mt entries o c
  | _ => ret responseData
  end.

(** ** Input-error collection *)

(** A raw input value: nil, or a value of some dynamic type. *)
Inductive inputValue : Type :=
| InNil
| InVal (tname : string) (repr : string).

(** What [web_request_readers.NameAndArgs] returns for a field, and
    the field's [Anonymous] flag. *)
Record inputField : Type := mkInputField {
  in_name : string;
  in_args : list string;
  in_anonymous : bool
}.

(** A [reflect.Type] as addInputErrors uses it: what the zero value of
    the type answers to the [InputValidator] and [RequestValueReceiver]
    assertions (the error each method returns, if any), which dynamic
    types convert to it, and its fields when it is a struct type
    ([None] otherwise: [NumField] panics). *)
Inductive rtype : Type :=
| RType (validator : option (inputValue -> option string))
        (receiver : option (inputValue -> option string))
        (convertibleFrom : string -> bool)
        (fields : option (list (inputField * rtype))).

Abbreviation inputParams := (gmap string inputValue).
Abbreviation MessageMap := (gmap string string).

(** Modelled from the spec: [MessageMap.SetInputMessage], declared
    outside the files at hand.  The notification map holds one message
    per input name; entries are set, not appended, a later write for
    the same key replaces the earlier one. *)
Definition SetInputMessage (key message : string) (notifications : MessageMap) : MessageMap :=
  <[key := message]> notifications.

Definition isOptional (args : list string) : bool :=
  existsb (fun arg => String.eqb arg "optional") args.

(** Lines 305-332: the checks on an input that has a target field. *)
Definition checkInput (name : string) (fieldType : rtype) (v : inputValue)
    (notifications : MessageMap) : outcome MessageMap :=
  match fieldType with
  | RType (Some validate) _ _ _ =>
      match validate v with
      | Some err => Ok (SetInputMessage name err notifications)
      | None => Ok notifications
      end
  | RType None (Some receive) _ _ =>
      match receive v with
      | Some err => Ok (SetInputMessage name err notifications)
      | None => Ok notifications
      end
  | RType None None convertibleFrom _ =>
      match v with
      | InNil => Panic "runtime error: invalid memory address or nil pointer dereference"
      | InVal tn _ =>
          if convertibleFrom tn then Ok notifications
          else Ok (SetInputMessage name "Input is of the wrong type and cannot be converted"
                     notifications)
      end
  end.

(** Lines 283-332: the loop body for a field that is not anonymous. *)
Definition namedField (f : inputField) (fieldType : rtype)
    (st : inputParams * MessageMap) : outcome (inputParams * MessageMap) :=
  let '(params, notifications) := st in
  let name := in_name f in
  let optional := isOptional (in_args f) in
  match params !! name with
  | None =>
      if negb optional
      then Ok (params, SetInputMessage name "No input for required field" notifications)
      else Ok (params, notifications)
  | Some v =>
      match checkInput name fieldType v notifications with
      | Ok notifications' => Ok (delete name params, notifications')
      | Panic msg => Panic msg
      end
  end.

Section InputLoop.
(** The recursive call [addInputErrors(field.Type, params, notifications)]. *)
Variable recur : rtype -> inputParams * MessageMap -> outcome (inputParams * MessageMap).

Fixpoint inputLoop (fields : list (inputField * rtype)) (st : inputParams * MessageMap)
  : outcome (inputParams * MessageMap) :=
  match fields with
  | [] => Ok st
  | (f, fieldType) :: rest =>
      match (if in_anonymous f then recur fieldType st else namedField f fieldType st) with
      | Ok st' => inputLoop rest st'
      | Panic msg => Panic msg
      end
  end.
End InputLoop.

(** The two maps are Go maps, shared with the caller: the state after
    the walk is returned. *)
Fixpoint addInputErrors (dataType : rtype) (st : inputParams * MessageMap) {struct dataType}
  : outcome (inputParams * MessageMap) :=
  match dataType with
  | RType _ _ _ (Some fields) => inputLoop addInputErrors fields st
  | RType _ _ _ None => Panic "reflect: NumField of non-struct type"
  end.

(** RespondWithInputErrors, lines 265-269.  [params] is what
    [ParseParams(ctx)] returned, [dataType] is [reflect.TypeOf(data)];
    the result is the notification map handed to [Respond]. *)
Definition RespondWithInputErrors (dataType : rtype) (params : inputParams)
    (notifications : MessageMap) : outcome MessageMap :=
  match addInputErrors dataType (params, notifications) with
  | Ok (params', notifications') =>
      Ok (map_fold (fun key _ n => SetInputMessage key "No target field found for this input" n)
            notifications' params')
  | Panic msg => Panic msg
  end.

(** ** Vocabulary of the properties *)

(** The order of the capability checks, in the specification's words. *)

Inductive capability : Type :=
| CustomValueProducer (produce : options -> value)
| StringConversion (s : string)
| ErrorCondition (msg : string)
| StructuralRecursion.

(** The capabilities a value exposes, in the fixed order. *)
Definition capabilitiesInOrder (v : value) : list (option capability) :=
  [ option_map CustomValueProducer (ResponseValue (methodsOf v));
    option_map StringConversion (String_ (methodsOf v));
    option_map ErrorCondition (Error_ (methodsOf v)) ].

Fixpoint firstMatching (l : list (option capability)) : capability :=
  match l with
  | [] => StructuralRecursion
  | Some cap :: _ => cap
  | None :: rest => firstMatching rest
  end.

(** What the specification says a field, element or mapping value
    renders to under options [o]. *)
Definition renderedByPrecedence (v : value) (o : options) (c : constructor) : M value :=
  if fullMode o then createResponse v true o c
  else
    match firstMatching (capabilitiesInOrder v) with
    | CustomValueProducer produce => mkM [EvResponseValue v o] (Ok (produce o))
    | StringConversion s => mkM [EvString v] (Ok (goString s))
    | ErrorCondition msg => mkM [EvError v] (Ok (goString msg))
    | StructuralRecursion => createResponse v true o c
    end.

(** The trace holds no call of [LazyLoad]. *)
Definition noLazyLoad (t : list event) : Prop :=
  forall v o, ~ In (EvLazyLoad v o) t.

(** A named, visible, non-suppressed field whose key is [name]. *)
Definition setsKey (name : string) (ft : StructField) : bool :=
  negb (Anonymous ft) && exported (Name ft) && String.eqb (ResponseTag ft) name.

(** What a key holds once an item has been stored under it. *)
Definition stored (item : value) : option value :=
  match item with
  | VNil => None
  | Val _ _ _ => Some item
  end.

(** The named fields of a type in the order the walk meets them. *)
Fixpoint walkedFields (dataType : rtype) : list (inputField * rtype) :=
  match dataType with
  | RType _ _ _ (Some fields) =>
      flat_map (fun ft => if in_anonymous (fst ft) then walkedFields (snd ft) else [ft]) fields
  | RType _ _ _ None => []
  end.

(** Every type the walk enters through an anonymous field is a struct
    type. *)
Fixpoint walkable (dataType : rtype) : bool :=
  match dataType with
  | RType _ _ _ (Some fields) =>
      forallb (fun ft => if in_anonymous (fst ft) then walkable (snd ft) else true) fields
  | RType _ _ _ None => false
  end.

(** The loop body applied to a list of named fields, one after the other. *)
Fixpoint namedLoop (fields : list (inputField * rtype)) (st : inputParams * MessageMap)
  : outcome (inputParams * MessageMap) :=
  match fields with
  | [] => Ok st
  | (f, fieldType) :: rest =>
      match namedField f fieldType st with
      | Ok st' => namedLoop rest st'
      | Panic msg => Panic msg
      end
  end.

(** Whether some field of the list has the input name [name], and
    whether some field of that name is not optional. *)
Definition namedIn (name : string) (fields : list (inputField * rtype)) : bool :=
  existsb (fun ft => String.eqb (in_name (fst ft)) name) fields.

Definition requiredIn (name : string) (fields : list (inputField * rtype)) : bool :=
  existsb (fun ft => String.eqb (in_name (fst ft)) name && negb (isOptional (in_args (fst ft))))
    fields.

(** ** Sample values *)

Definition intValue (z : Z) : value := Val "int" noMethods (KInt z).
Definition boolValue (b : bool) : value := Val "bool" noMethods (KBool b).
Definition field (name : string) : StructField := mkField name false [].
Definition embedded (name : string) : StructField := mkField name true [].

(** [type NullInt struct { Int int; Valid bool }] *)
Definition NullInt (i : Z) (valid : bool) : value :=
  Val "NullInt" noMethods
    (KStruct [(field "Int", intValue i); (field "Valid", boolValue valid)]).

(** A struct whose type has both [LazyLoad] and [String]:
    [loadedAlbum] is the album once [LazyLoad] has filled the title. *)
Definition loadedAlbum : value :=
  Val "Album" (mkMethods None None None (Some "an album") None)
    (KStruct [(field "Title", goString "loaded")]).
Definition lazyStringer : value :=
  Val "Album"
    (mkMethods (Some (fun _ => loadedAlbum)) None None (Some "an album") None)
    (KStruct [(field "Title", goString "")]).

(** [map[string]interface{}{"a": 1}] *)
Definition msiType : maptype := mkMapType true ElemInterface.
Definition sampleMap : value :=
  Val "map[string]interface {}" noMethods (KMap msiType [("a", intValue 1)]).

(** [struct { Items []int }{ []int{1} }] *)
Definition withItems : value :=
  Val "Page" noMethods
    (KStruct [(field "Items", Val "[]int" noMethods (KSlice [intValue 1]))]).

(** [type NullInt struct { Int int; Valid string }] *)
Definition NullIntStringValid : value :=
  Val "NullInt" noMethods
    (KStruct [(field "Int", intValue 7); (field "Valid", goString "yes")]).

(** An error value that is also a struct with a [LazyLoad] method. *)
Definition notFound : value :=
  Val "NotFoundError"
    (mkMethods (Some (fun _ => VNil)) None None None (Some "not found"))
    (KStruct [(field "Code", intValue 404)]).

(** The options [{"type": "full"}]. *)
Definition fullOptions : options := Some [("type", OptStr "full")].

(** The options [{"b": {}}]: non-nil, with neither ["a"], ["items"]
    nor ["*"]. *)
Definition onlyB : options := Some [("b", OptMSI [])].

(** The options [{"items": {}}]. *)
Definition itemsOptions : options := Some [("items", OptMSI [])].

(** [struct { A int }{1}] *)
Definition withA : value := Val "Rec" noMethods (KStruct [(field "A", intValue 1)]).

(** A field [Title] tagged [response:"" db:"title_col"]. *)
Definition emptyResponseTag : StructField :=
  mkField "Title" false [("response", ""); ("db", "title_col")].

(** [type Base struct { X int; Y int }], embedded in
    [struct { Base; X int }] and in [struct { X int; Base }]. *)
Definition baseValue : value :=
  Val "Base" noMethods (KStruct [(field "X", intValue 1); (field "Y", intValue 10)]).
Definition embeddedFirst : list (StructField * value) :=
  [(embedded "Base", baseValue); (field "X", intValue 2)].
Definition embeddedLast : list (StructField * value) :=
  [(field "X", intValue 2); (embedded "Base", baseValue)].

(** Sample target types: [Name string] (required) and [Age int]
    (optional). *)
Definition stringType : rtype := RType None None (fun tn => String.eqb tn "string") None.
Definition intType : rtype :=
  RType None None (fun tn => String.eqb tn "int" || String.eqb tn "float64") None.
Definition personType : rtype :=
  RType None None (fun _ => false)
    (Some [ (mkInputField "Name" [] false, stringType);
            (mkInputField "Age" ["optional"] false, intType) ]).

(** The input [{}] and the input [{"Name": "a", "Extra": "b"}]. *)
Definition noInput : inputParams := ∅.
Definition nameAndExtra : inputParams :=
  <["Name" := InVal "string" "a"]> (<["Extra" := InVal "string" "b"]> ∅).

(** [map[string]interface{}{"a": NullInt{7, false}, "b": 1}] *)
Definition nullableEntries : list (string * value) :=
  [("a", NullInt 7 false); ("b", intValue 1)].


(** ** Vocabulary of the further properties *)

(** Under nil options the rendering of [v], and the switch on the
    kind of [v], give the same run for any two constructors. *)
Definition constructorFree (v : value) : Prop :=
  forall isSubResponse c c',
    createResponse v isSubResponse None c = createResponse v isSubResponse None c'.

Definition switchConstructorFree (v : value) : Prop :=
  forall responseData isSubResponse c c',
    kindSwitch responseData v isSubResponse None c
    = kindSwitch responseData v isSubResponse None c'.

(** The kinds createResponse decomposes: struct, slice or array, map. *)
Definition decomposed (v : value) : bool :=
  match v with
  | Val _ _ (KStruct _) | Val _ _ (KSlice _) | Val _ _ (KMap _ _) => true
  | _ => false
  end.

(** A value whose type has neither [LazyLoad] nor [ResponseObject]. *)
Definition plainValue (v : value) : bool :=
  match LazyLoad (methodsOf v), ResponseObject (methodsOf v) with
  | None, None => true
  | _, _ => false
  end.

(** [*Base] pointing at [baseValue], and a pointer to that pointer. *)
Definition basePointer : value := Val "*Base" noMethods (KPtr (Some baseValue)).
Definition basePointerPointer : value := Val "**Base" noMethods (KPtr (Some basePointer)).

(** The checks of lines 318-332 pass: the validator, or else the
    receiver, returns no error, or else the input's type converts to
    the field's type. *)
Definition accepted (fieldType : rtype) (v : inputValue) : bool :=
  match fieldType with
  | RType (Some validate) _ _ _ =>
      match validate v with None => true | Some _ => false end
  | RType None (Some receive) _ _ =>
      match receive v with None => true | Some _ => false end
  | RType None None convertibleFrom _ =>
      match v with InNil => false | InVal tn _ => convertibleFrom tn end
  end.

(** A type with neither validator nor receiver: inputs are checked by
    convertibility. *)
Definition checkedByConversion (fieldType : rtype) : bool :=
  match fieldType with
  | RType None None _ _ => true
  | _ => false
  end.

(** The input names of a list of fields. *)
Definition inputNames (fields : list (inputField * rtype)) : list string :=
  map (fun p => in_name (fst p)) fields.

(** [type Base struct { Name string }] embedded in
    [struct { Name string; Base }]: the input name ["Name"] twice. *)
Definition nameTwiceType : rtype :=
  RType None None (fun _ => false)
    (Some [ (mkInputField "Name" [] false, stringType);
            (mkInputField "Base" [] true,
             RType None None (fun _ => false)
               (Some [(mkInputField "Name" [] false, stringType)])) ]).

(** The inputs [{"Name": "a"}], [{"Name": "a", "Age": 3}] and
    [{"Name": null}]. *)
Definition nameOnly : inputParams := <["Name" := InVal "string" "a"]> ∅.
Definition nameAndAge : inputParams :=
  <["Name" := InVal "string" "a"]> (<["Age" := InVal "int" "3"]> ∅).
Definition nameNull : inputParams := <["Name" := InNil]> ∅.

(** ** The codec (codecs/codecs.go) *)

Module codecs.

Definition typeCategory : string := "application".
Definition typeName : string := "vnd.radiobox.encapsulated".
Definition BasicMimeType : string := String.append typeCategory (String.append "/" typeName).
Definition defaultBaseType : string := "application/json".

(** [codec.ContentType()] *)
Definition ContentType : string := BasicMimeType.

(** [strings.IndexRune(s, r)] for an ASCII rune [r]: the index of the
    first byte [r] of [s]; [None] is the result -1. *)
Fixpoint IndexRune (s : string) (r : ascii) : option nat :=
  match s with
  | EmptyString => None
  | String b rest => if Ascii.eqb b r then Some 0 else option_map S (IndexRune rest r)
  end.

(** [strings.ContainsRune(s, r)] *)
Definition ContainsRune (s : string) (r : ascii) : bool :=
  match IndexRune s r with Some _ => true | None => false end.

(** ContentTypeSupported checks a mime type string to see if this codec
    can support responses in that format. *)
Definition ContentTypeSupported (contentType : string) : bool :=
  let contentType :=
    match IndexRune contentType "+" with
    | Some index => String.substring 0 index contentType     (* contentType[:index] *)
    | None => contentType
    end in
  String.eqb contentType ContentType.

(** Marshal, lines 81-87: the mime type of the codec that encodes the
    wrapped response.  [matched_type] is [options["matched_type"]]
    when it is there and a string, [None] otherwise; the slice
    [matchedType[n:]] panics when [n] is beyond the string. *)
Definition baseType (matched_type : option string) : outcome string :=
  match matched_type with
  | Some matchedType =>
      if ContainsRune matchedType "+" then
        let n := String.length ContentType + 1 in
        if Nat.leb n (String.length matchedType)
        then Ok (String.append typeCategory (String.append "/" (dropPrefix n matchedType)))
        else Panic "runtime error: slice bounds out of range"
      else Ok defaultBaseType
  | None => Ok defaultBaseType
  end.

End codecs.

(** [type Extra struct { Y int; Z int }], embedded after [Base] in
    [struct { Base; Extra }]. *)
Definition extraValue : value :=
  Val "Extra" noMethods (KStruct [(field "Y", intValue 20); (field "Z", intValue 30)]).
Definition twoEmbedded : list (StructField * value) :=
  [(embedded "Base", baseValue); (embedded "Extra", extraValue)].

(** A field name that starts with an ASCII byte: for such a name the
    byte test of line 199 is Go's own test for an exported name. *)
Definition asciiStart (name : string) : bool :=
  match name with
  | EmptyString => false
  | String b _ => Nat.ltb (nat_of_ascii b) 128
  end.

(** Plain data: types with none of the five methods the renderer
    asks for, structs with named fields only whose names start with an
    ASCII byte and whose type is not named [Null...], maps from
    [string] to [interface{}], slices, scalars, and pointers to plain
    data. *)
Fixpoint plainData (v : value) : bool :=
  match v with
  | VNil => true
  | Val tn ms body =>
      match LazyLoad ms, ResponseObject ms, ResponseValue ms, String_ ms, Error_ ms with
      | None, None, None, None, None =>
          match body with
          | KStruct fields =>
              negb (HasPrefix tn SqlNullablePrefix)
              && forallb (fun p => negb (Anonymous (fst p)) && asciiStart (Name (fst p))
                                   && plainData (snd p)) fields
          | KSlice elems => forallb plainData elems
          | KMap mt entries =>
              key_is_string mt
              && match elem mt with ElemInterface => true | ElemConcrete _ => false end
              && forallb (fun p => plainData (snd p)) entries
          | KPtr (Some target) => plainData target
          | _ => true
          end
      | _, _, _, _, _ => false
      end
  end.

(** [struct { Name string; Tags []string; Owner *Base }] *)
Definition plainSample : value :=
  Val "Asset" noMethods
    (KStruct [ (field "Name", goString "a");
               (field "Tags", Val "[]string" noMethods (KSlice [goString "t1"; goString "t2"]));
               (field "Owner", basePointer) ]).

(** ** Marshal (codecs/codecs.go) *)

Module marshal.

(** A value of the codec's options bag [map[string]interface{}], as
    far as Marshal looks at it. *)
Inductive optionValue : Type :=
| AString (s : string)
| AParams (p : options)      (* an [objx.Map] *)
| AOther.

(** What the base codec returns: the bytes or an error; [NoCodec] is
    the error of [GetCodec]. *)
Inductive marshalled : Type :=
| Bytes (b : string)
| Failed (err : string)
| NoCodec (baseType : string).

(** Lines 63-68: the joins string; the two unchecked assertions
    panic. *)
Definition joinsString (opts : list (string * optionValue)) : M string :=
  match alist_lookup "joins" opts with
  | Some (AString s) => ret s
  | Some _ => panic "interface conversion: interface {} is not string"
  | None =>
      match alist_lookup "input_params" opts with
      | Some (AParams p) => ret (Str (Get p "joins"))
      | _ => panic "interface conversion: interface {} is not objx.Map"
      end
  end.

(** [options["matched_type"].(string)] with its [ok] flag. *)
Definition matchedType (opts : list (string * optionValue)) : option string :=
  match alist_lookup "matched_type" opts with
  | Some (AString s) => Some s
  | _ => None
  end.

Definition liftOutcome {A} (r : outcome A) : M A := mkM [] r.

Section Marshal.
(** [objx.FromJSON]: [None] when it returns an error (the map is then
    nil and the error is only logged). *)
Variable FromJSON : string -> option (list (string * optval)).
(** The function [codec.CreateConstructor(options)] returns, for
    options whose ["protocol"] and ["host"] are strings (as Respond
    sets them), so that its two assertions pass. *)
Variable construct : list (string * optionValue) -> value -> value -> value.
(** [goweb.CodecService.GetCodec] and the codec's [Marshal]. *)
Variable GetCodec : string -> option (value -> list (string * optionValue) -> marshalled).

(** Lines 69-76. *)
Definition joinsOptions (joinsStr : string) : options :=
  if String.eqb joinsStr "" then None else FromJSON joinsStr.

(** Marshal encapsulates the passed in object with our encapsulation
    format. *)
Definition Marshal (object : value) (opts : list (string * optionValue)) : M marshalled :=
  do joinsStr <~ joinsString opts in
  let joins := joinsOptions joinsStr in
  let constructor := Some (construct opts) in
  do responseObject <~ CreateResponse object [ArgOptions joins; ArgConstructor constructor] in
  do response <~ callConstructor constructor responseObject object in
  do baseType <~ liftOutcome (codecs.baseType (matchedType opts)) in
  match GetCodec baseType with
  | Some baseCodec => ret (baseCodec response opts)
  | None => ret (NoCodec baseType)
  end.
End Marshal.

End marshal.

(** A codec service that knows [application/json] only, and options
    as Respond sets them, without joins. *)
Definition jsonOnly (baseType : string)
  : option (value -> list (string * marshal.optionValue) -> marshal.marshalled) :=
  if String.eqb baseType "application/json"
  then Some (fun _ _ => marshal.Bytes "{}")
  else None.
Definition noJoins : list (string * marshal.optionValue) :=
  [("input_params", marshal.AParams (Some [])); ("protocol", marshal.AString "http");
   ("host", marshal.AString "example.org")].

(** ** Further sample values *)

(** [struct { Album Album }] holding [lazyStringer]. *)
Definition albumHolder : value :=
  Val "Holder" noMethods (KStruct [(field "Album", lazyStringer)]).

(** The embedded field [Base] tagged [response:"-"]. *)
Definition suppressedBase : StructField := mkField "Base" true [("response", "-")].

(** The input [{"Name": null, "Extra": "b"}]. *)
Definition nullNameAndExtra : inputParams :=
  <["Name" := InNil]> (<["Extra" := InVal "string" "b"]> ∅).
(** * Properties *)

(** ** The shape of createResponse *)

Lemma createResponse_eq data isSubResponse o c :
  createResponse data isSubResponse o c =
  run lazyLoadEvents data o in
  run responseObjectEvents (loadedValue data o) in
  kindSwitch (substituted (loadedValue data o))
             (derefOnce (substituted (loadedValue data o))) isSubResponse o c.
Proof.
  destruct data as [|tn [[f|] ro rv s e] body].
  - reflexivity.
  - unfold loadedValue; cbn [methodsOf LazyLoad createResponse].
    destruct (f o) as [|tn' [ll' [r|] rv' s' e'] body']; reflexivity.
  - destruct ro; reflexivity.
Qed.

Lemma bindM_trace_prefix {A B} (m : M A) (k : A -> M B) :
  exists tl, trace (bindM m k) = trace m ++ tl.
Proof.
  unfold bindM. destruct (result m) as [a|msg]; cbn.
  - eauto.
  - exists []. now rewrite app_nil_r.
Qed.

Lemma bindM_ext {A B} (m : M A) (k k' : A -> M B) :
  (forall a, k a = k' a) -> bindM m k = bindM m k'.
Proof. intros E. unfold bindM. destruct (result m); [now rewrite E | reflexivity]. Qed.

Section LoopsExt.
Variables renderEmbedded renderEmbedded' : value -> M value.
Variables renderValue renderValue' : value -> options -> M value.
Hypothesis embedded_ext : forall v, renderEmbedded v = renderEmbedded' v.
Hypothesis value_ext : forall v o, renderValue v o = renderValue' v o.

Lemma structLoop_ext fields o response :
  structLoop renderEmbedded renderValue fields o response =
  structLoop renderEmbedded' renderValue' fields o response.
Proof.
  revert response. induction fields as [|[ft fv] rest IH]; intros response; cbn.
  - reflexivity.
  - destruct (Anonymous ft).
    + apply bindM_ext; intros _. rewrite embedded_ext.
      apply bindM_ext; intros r. apply bindM_ext; intros em. apply IH.
    + destruct (exported (Name ft)); [|apply IH].
      destruct (String.eqb (ResponseTag ft) "-"); [apply IH|].
      apply bindM_ext; intros so. rewrite value_ext.
      apply bindM_ext; intros r. apply IH.
Qed.

Lemma sliceLoop_ext elems o response :
  sliceLoop renderValue elems o response = sliceLoop renderValue' elems o response.
Proof.
  revert response. induction elems as [|e rest IH]; intros response; cbn.
  - reflexivity.
  - rewrite value_ext. apply bindM_ext; intros r. apply IH.
Qed.

Lemma mapLoop_ext mt entries o response :
  mapLoop renderValue mt entries o response = mapLoop renderValue' mt entries o response.
Proof.
  revert response. induction entries as [|[k v] rest IH]; intros response; cbn.
  - reflexivity.
  - destruct (key_is_string mt); [|reflexivity].
    apply bindM_ext; intros eo. rewrite value_ext.
    apply bindM_ext; intros r. apply bindM_ext; intros r'. apply IH.
Qed.
End LoopsExt.

(** ** Capability precedence *)

(** C1. A field, element or mapping value is rendered by
    createResponseValue (the three loops are instantiated with it), and
    createResponseValue is the specification's rule: without the
    "full" directive the first capability in the order custom value
    producer, string conversion, error condition decides, the custom
    producer being called with the narrowed options and its result used
    as it is, and structural recursion comes last; with the "full"
    directive the three capabilities are skipped and structural
    recursion is taken. *)
Theorem createResponseValue_precedence :
  (forall v o c, createResponseValue v o c = renderedByPrecedence v o c) /\
  (forall tn fields o c,
      createStructResponse tn fields o c =
      structBody (fun v => CreateResponse v [ArgOptions o; ArgConstructor c])
                 (fun v o' => renderedByPrecedence v o' c) tn fields o) /\
  (forall elems o c,
      createSliceResponse elems o c =
      sliceBody (fun v o' => renderedByPrecedence v o' c) elems o) /\
  (forall tn ms mt entries o c,
      createMapResponse tn ms mt entries o c =
      mapBody (fun v o' => renderedByPrecedence v o' c) tn ms mt entries o).
Proof.
  assert (E : forall v o c, createResponseValue v o c = renderedByPrecedence v o c).
  { intros v o c. unfold createResponseValue, dispatchValue, renderedByPrecedence.
    destruct (fullMode o); cbn [negb]; [reflexivity|].
    unfold capabilitiesInOrder.
    destruct (ResponseValue (methodsOf v)) as [f|]; [reflexivity|].
    destruct (String_ (methodsOf v)) as [s|]; [reflexivity|].
    destruct (Error_ (methodsOf v)) as [e|]; reflexivity. }
  repeat split; intros.
  - apply E.
  - unfold createStructResponse, structBody. apply bindM_ext; intros [n|]; [reflexivity|].
    now rewrite (structLoop_ext _ _ _ (fun v o' => renderedByPrecedence v o' c)
                   (fun v => eq_refl) (fun v o' => E v o' c)).
  - unfold createSliceResponse, sliceBody.
    now rewrite (sliceLoop_ext _ (fun v o' => renderedByPrecedence v o' c)
                   (fun v o' => E v o' c)).
  - unfold createMapResponse, mapBody.
    now rewrite (mapLoop_ext _ (fun v o' => renderedByPrecedence v o' c)
                   (fun v o' => E v o' c)).
Qed.

(** ** The top-level error short-circuit *)

(** C7. A top-level value that satisfies the error capability makes
    CreateResponse return exactly its message text; the whole run is
    the one call of [Error]: no lazy loading, no reading of the option
    list (whatever it holds), no structural decomposition. *)
Theorem CreateResponse_error_short_circuit data optionList msg :
  Error_ (methodsOf data) = Some msg ->
  CreateResponse data optionList = mkM [EvError data] (Ok (goString msg)).
Proof. intros H. unfold CreateResponse, errorShortCircuit. now rewrite H. Qed.

Lemma CreateResponse_error_short_circuit_witness :
  CreateResponse notFound [ArgOther; ArgOther; ArgOther]
  = mkM [EvError notFound] (Ok (goString "not found")).
Proof. apply (CreateResponse_error_short_circuit notFound _ "not found"). reflexivity. Defined.

(** ** Lazy loading *)

(** C6, at the failing input.  The field [Album] of a struct holds a
    value whose type is a [LazyLoader] and also a [Stringer].  The
    comment of CreateResponse says that values which implement
    LazyLoader have their LazyLoad method run first; rendered as a
    field the value becomes its string form and [LazyLoad] is never
    called, neither before the capability checks nor after. *)
Theorem lazy_load_skipped_by_capability :
  LazyLoad (methodsOf lazyStringer) <> None /\
  createResponseValue lazyStringer None None
  = mkM [EvString lazyStringer] (Ok (goString "an album")) /\
  CreateResponse albumHolder []
  = mkM [EvString lazyStringer] (Ok (objxMapValue [("album", goString "an album")])) /\
  ~ (forall v o c,
        LazyLoad (methodsOf v) <> None ->
        exists tl, trace (createResponseValue v o c) = EvLazyLoad v o :: tl).
Proof.
  split; [discriminate|]. split; [reflexivity|]. split; [reflexivity|].
  intros H. destruct (H lazyStringer None None) as [tl E]; [discriminate|].
  cbn in E. discriminate E.
Qed.

(** Where [LazyLoad] is called.  It is the first thing structural
    rendering (createResponse) does, with the current options.  A
    field, element or mapping value gets it when the "full" directive
    is set or when the value exposes none of the three capabilities;
    when one of the three capabilities decides, the value is not lazily
    loaded at all. *)
Theorem lazy_load_starts_structural_rendering v o c f :
  LazyLoad (methodsOf v) = Some f ->
  (forall isSubResponse,
      exists tl, trace (createResponse v isSubResponse o c) = EvLazyLoad v o :: tl) /\
  (fullMode o = true \/ firstMatching (capabilitiesInOrder v) = StructuralRecursion ->
   exists tl, trace (createResponseValue v o c) = EvLazyLoad v o :: tl) /\
  (fullMode o = false ->
   firstMatching (capabilitiesInOrder v) <> StructuralRecursion ->
   noLazyLoad (trace (createResponseValue v o c))).
Proof.
  intros H.
  assert (S : forall isSubResponse,
             exists tl, trace (createResponse v isSubResponse o c) = EvLazyLoad v o :: tl).
  { intros isSubResponse. rewrite createResponse_eq.
    unfold lazyLoadEvents. rewrite H.
    destruct (bindM_trace_prefix (emit (EvLazyLoad v o))
                (fun _ => run responseObjectEvents (loadedValue v o) in
                          kindSwitch (substituted (loadedValue v o))
                            (derefOnce (substituted (loadedValue v o))) isSubResponse o c))
      as [tl E].
    exists tl. exact E. }
  split; [exact S|].
  unfold createResponseValue, dispatchValue. split.
  - intros [F|F].
    + rewrite F. cbn [negb]. apply S.
    + destruct (fullMode o); cbn [negb]; [apply S|].
      unfold capabilitiesInOrder in F.
      destruct (ResponseValue (methodsOf v)); [discriminate F|].
      destruct (String_ (methodsOf v)); [discriminate F|].
      destruct (Error_ (methodsOf v)); [discriminate F|]. apply S.
  - intros F N. rewrite F. cbn [negb]. unfold capabilitiesInOrder in N.
    destruct (ResponseValue (methodsOf v));
      [intros v' o' [I|[]]; discriminate I|].
    destruct (String_ (methodsOf v));
      [intros v' o' [I|[]]; discriminate I|].
    destruct (Error_ (methodsOf v));
      [intros v' o' [I|[]]; discriminate I|].
    now contradiction N.
Qed.

Lemma lazy_load_starts_structural_rendering_witness :
  exists tl, trace (createResponseValue lazyStringer fullOptions None)
             = EvLazyLoad lazyStringer fullOptions :: tl.
Proof.
  apply (lazy_load_starts_structural_rendering lazyStringer fullOptions None
           (fun _ => loadedAlbum) eq_refl).
  left. reflexivity.
Defined.

(** ** The constructor callback on sequences *)

Lemma kindSwitch_slice responseData tn ms elems isSubResponse o c :
  kindSwitch responseData (Val tn ms (KSlice elems)) isSubResponse o c =
  do r <~ createSliceResponse elems o c in
  if negb (options_is_nil o) && isSubResponse
  then callConstructor c r (Val tn ms (KSlice elems))
  else ret r.
Proof. reflexivity. Qed.

(** C8, at the failing input.  [CreateResponse(page, options)] with
    no constructor, where [page] has a field [Items []int] and the
    options have an entry for ["items"]: the sequence is a
    sub-response under non-nil options, the nil constructor is called
    and the render panics instead of returning the sequence
    unwrapped. *)
Theorem sequence_without_constructor_panics :
  result (CreateResponse withItems [ArgOptions itemsOptions])
  = Panic "runtime error: invalid memory address or nil pointer dereference".
Proof. reflexivity. Qed.

(** ** Options narrowing *)

(** C2, at the failing input.  A mapping [{"a": 1}] rendered under the
    non-nil options [{"b": {}}], which hold neither ["a"] nor ["*"]:
    createMapResponse reads through the nil [*objx.Value] and panics,
    where createStructResponse, for a field of the same name under the
    same options, passes no sub-options and renders the field. *)
Theorem mapping_without_key_or_wildcard_panics :
  result (CreateResponse sampleMap [ArgOptions onlyB])
  = Panic "runtime error: invalid memory address or nil pointer dereference" /\
  mapElementOptions onlyB "a"
  = panic "runtime error: invalid memory address or nil pointer dereference" /\
  structSubOptions onlyB "a" = ret None /\
  result (CreateResponse withA [ArgOptions onlyB]) = Ok (objxMapValue [("a", intValue 1)]).
Proof. repeat split; reflexivity. Qed.

(** The lookup both loops share when the key or the wildcard is there. *)
Lemma narrowing_exact_then_wildcard o name :
  Has o name || Has o "*" = true ->
  structSubOptions o name = mapElementOptions o name /\
  structSubOptions o name = optionToMap (if Has o name then Get o name else Get o "*").
Proof.
  intros H. unfold structSubOptions, mapElementOptions.
  destruct o as [m|]; [|discriminate H]. cbn [options_is_nil negb andb].
  rewrite H. destruct (Has (Some m) name); [easy|].
  cbn [orb] in H. now rewrite H.
Qed.

(** ** Nullable unwrapping *)

Lemma FieldByName_name n fields fv :
  FieldByName n fields = Some fv -> Name (fst fv) = n.
Proof.
  unfold FieldByName. intros H. apply find_some in H as [_ H].
  now apply String.eqb_eq in H.
Qed.

(** With a boolean [Valid] field the payload is unwrapped. *)
Lemma nullable_fires typeName fields payload valid ms b :
  HasPrefix typeName SqlNullablePrefix = true ->
  FieldByName (dropPrefix (String.length SqlNullablePrefix) typeName) fields = Some payload ->
  exported (Name (fst payload)) = true ->
  FieldByName "Valid" fields = Some (valid, Val "bool" ms (KBool b)) ->
  createNullableDbResponse typeName fields
  = ret (Some (if b then snd payload else VNil)).
Proof.
  intros P F X V. unfold createNullableDbResponse. rewrite P, F, V.
  unfold fieldInterface. rewrite (FieldByName_name _ _ _ V), X.
  now destruct b.
Qed.

(** Without the prefix, the payload field or a [Valid] field there is
    nothing to unwrap. *)
Lemma nullable_not_found typeName fields :
  HasPrefix typeName SqlNullablePrefix = false \/
  FieldByName (dropPrefix (String.length SqlNullablePrefix) typeName) fields = None \/
  FieldByName "Valid" fields = None ->
  createNullableDbResponse typeName fields = ret None.
Proof.
  unfold createNullableDbResponse. intros [H|[H|H]]; rewrite H; [reflexivity| |].
  - now destruct (HasPrefix typeName SqlNullablePrefix).
  - destruct (HasPrefix typeName SqlNullablePrefix); [|reflexivity].
    match goal with |- context [match ?x with Some _ => _ | None => _ end] => destruct x end;
      reflexivity.
Qed.

Lemma nullable_unwrap_examples :
  result (CreateResponse (NullInt 7 true) []) = Ok (intValue 7) /\
  result (CreateResponse (NullInt 7 false) []) = Ok VNil.
Proof. split; reflexivity. Qed.

(** C5, at the failing input.  A struct type [NullInt] with the fields
    [Int int] and [Valid string]: it has no boolean [Valid] field, so
    the unwrapping should not fire and the value should be rendered as
    an ordinary struct; the unchecked assertion [.(bool)] panics
    instead. *)
Theorem nullable_with_non_bool_valid_panics :
  result (CreateResponse NullIntStringValid [])
  = Panic "interface conversion: interface {} is not bool".
Proof. reflexivity. Qed.

(** ** Field tags *)

(** C3, as stated, at two inputs.  A response tag that is present
    with the empty string as its value: the resolved name is the db
    tag's value.  An embedded field tagged [response:"-"]: its
    resolved name is ["-"], and the keys of its rendering are in the
    output all the same. *)
Lemma empty_response_tag_falls_through :
  alist_lookup "response" (Tag emptyResponseTag) = Some "" /\
  ResponseTag emptyResponseTag = "title_col" /\
  ~ (forall f v, alist_lookup "response" (Tag f) = Some v -> ResponseTag f = v) /\
  ResponseTag suppressedBase = "-" /\
  result (createStructResponse "Outer"
            [(suppressedBase, baseValue); (field "Z", intValue 3)] None None)
  = Ok (objxMapValue [("x", intValue 1); ("y", intValue 10); ("z", intValue 3)]).
Proof.
  split; [reflexivity|]. split; [reflexivity|]. split; [|split; reflexivity].
  intros H. specialize (H emptyResponseTag "" eq_refl). discriminate H.
Qed.

(** An embedded field's tags are not read: the walk merges the keys
    of its rendering whatever its tags are. *)
Lemma embedded_field_tags_are_not_read renderEmbedded renderValue f tags fv rest o response :
  Anonymous f = true ->
  structLoop renderEmbedded renderValue ((f, fv) :: rest) o response
  = structLoop renderEmbedded renderValue ((mkField (Name f) true tags, fv) :: rest) o response.
Proof. intros A. cbn [structLoop]. rewrite A. reflexivity. Qed.

(** C3, amended.  For every field descriptor the resolved name is
    the response tag's value when the tag is present with a value
    other than the empty string; otherwise, when the field is not named
    "Id", the db tag's value when present, not empty and not ["-"];
    otherwise the declared name lower-cased.  A named (not embedded)
    field whose response tag is ["-"] is suppressed: the walk skips it
    and it adds no key. *)
Theorem ResponseTag_precedence (f : StructField) :
  (forall v, alist_lookup "response" (Tag f) = Some v -> v <> "" -> ResponseTag f = v) /\
  (TagGet f "response" = "" -> Name f <> "Id" ->
   forall v, alist_lookup "db" (Tag f) = Some v -> v <> "" -> v <> "-" -> ResponseTag f = v) /\
  (TagGet f "response" = "" ->
   Name f = "Id" \/ TagGet f "db" = "" \/ TagGet f "db" = "-" ->
   ResponseTag f = ToLower (Name f)) /\
  (forall renderEmbedded renderValue fv rest o response,
      Anonymous f = false -> TagGet f "response" = "-" ->
      structLoop renderEmbedded renderValue ((f, fv) :: rest) o response
      = structLoop renderEmbedded renderValue rest o response).
Proof.
  unfold ResponseTag, TagGet. repeat split.
  - intros v E N. rewrite E. apply String.eqb_neq in N. now rewrite N.
  - intros R I v E N1 N2. rewrite R, E. cbn.
    apply String.eqb_neq in I, N1, N2. now rewrite I, N1, N2.
  - intros R [I|[D|D]]; rewrite R; cbn.
    + now rewrite I.
    + rewrite D. cbn. now rewrite andb_false_r.
    + rewrite D. cbn. now rewrite andb_false_r.
  - intros rE rV fv rest o response A R. cbn. rewrite A.
    unfold ResponseTag, TagGet. rewrite R. cbn.
    now destruct (exported (Name f)).
Qed.

Lemma ResponseTag_precedence_witness :
  ResponseTag (mkField "Title" false [("response", "name"); ("db", "title_col")]) = "name".
Proof.
  apply (proj1 (ResponseTag_precedence
                  (mkField "Title" false [("response", "name"); ("db", "title_col")]))
           "name").
  - reflexivity.
  - discriminate.
Defined.

(** ** Association lists *)

Section AListFacts.
Context {A : Type}.
Implicit Types (m : list (string * A)) (k : string).

Lemma alist_lookup_set k k' v m :
  alist_lookup k (alist_set k' v m) = if String.eqb k k' then Some v else alist_lookup k m.
Proof.
  induction m as [|[k0 v0] m IH]; cbn.
  - now destruct (String.eqb k k').
  - destruct (String.eqb k' k0) eqn:E; cbn.
    + apply String.eqb_eq in E. subst k0. now destruct (String.eqb k k').
    + destruct (String.eqb k k0) eqn:E0; [|exact IH].
      apply String.eqb_eq in E0. subst k0.
      now rewrite String.eqb_sym, E.
Qed.

Lemma alist_lookup_delete k k' m :
  alist_lookup k (alist_delete k' m) = if String.eqb k k' then None else alist_lookup k m.
Proof.
  induction m as [|[k0 v0] m IH]; cbn.
  - now destruct (String.eqb k k').
  - destruct (String.eqb k' k0) eqn:E; cbn.
    + rewrite IH. apply String.eqb_eq in E. subst k0. now destruct (String.eqb k k').
    + destruct (String.eqb k k0) eqn:E0; [|exact IH].
      apply String.eqb_eq in E0. subst k0.
      now rewrite String.eqb_sym, E.
Qed.

Lemma alist_lookup_not_in k m :
  ~ In k (map fst m) -> alist_lookup k m = None.
Proof.
  induction m as [|[k0 v0] m IH]; cbn; [easy|]. intros N.
  destruct (String.eqb k k0) eqn:E.
  - apply String.eqb_eq in E. subst. tauto.
  - apply IH. tauto.
Qed.
End AListFacts.

Lemma mergeEmbedded_lookup k (em response : list (string * value)) :
  alist_lookup k (mergeEmbedded em response) =
  match alist_lookup k response with
  | Some v => Some v
  | None => alist_lookup k em
  end.
Proof.
  revert response. induction em as [|[k0 v0] em IH]; intros response; cbn.
  - now destruct (alist_lookup k response).
  - rewrite IH. unfold alist_has.
    destruct (alist_lookup k0 response) eqn:E0.
    + destruct (alist_lookup k response) eqn:E; [reflexivity|].
      destruct (String.eqb k k0) eqn:K; [|reflexivity].
      apply String.eqb_eq in K. subst k0. congruence.
    + rewrite alist_lookup_set.
      destruct (String.eqb k k0) eqn:K.
      * apply String.eqb_eq in K. subst k0. now rewrite E0.
      * reflexivity.
  Qed.

(** ** Results of sequenced steps *)

Lemma bindM_Ok {A B} (m : M A) (k : A -> M B) b :
  result (bindM m k) = Ok b -> exists a, result m = Ok a /\ result (k a) = Ok b.
Proof.
  unfold bindM. destruct (result m) as [a|msg]; cbn; [eauto | discriminate].
Qed.

Lemma bindM_Ok_intro {A B} (m : M A) (k : A -> M B) a :
  result m = Ok a -> result (bindM m k) = result (k a).
Proof. intros E. unfold bindM. now rewrite E. Qed.

Section StructLoopFacts.
Variable renderEmbedded : value -> M value.
Variable renderValue : value -> options -> M value.
#[local] Abbreviation loop := (structLoop renderEmbedded renderValue).

Lemma structLoop_app pre post o response final :
  result (loop (pre ++ post) o response) = Ok final ->
  exists mid, result (loop pre o response) = Ok mid /\ result (loop post o mid) = Ok final.
Proof.
  revert response.
  induction pre as [|[ft fv] pre IH]; intros response H; cbn in *.
  - eauto.
  - destruct (Anonymous ft).
    + apply bindM_Ok in H as [u [E1 H]]. apply bindM_Ok in H as [r [E2 H]].
      apply bindM_Ok in H as [em [E3 H]]. apply IH in H as [mid [H1 H2]].
      exists mid. split; [|exact H2].
      rewrite (bindM_Ok_intro _ _ _ E1), (bindM_Ok_intro _ _ _ E2),
        (bindM_Ok_intro _ _ _ E3). exact H1.
    + destruct (exported (Name ft)); [|now apply IH].
      destruct (String.eqb (ResponseTag ft) "-"); [now apply IH|].
      apply bindM_Ok in H as [so [E1 H]]. apply bindM_Ok in H as [r [E2 H]].
      apply IH in H as [mid [H1 H2]].
      exists mid. split; [|exact H2].
      rewrite (bindM_Ok_intro _ _ _ E1), (bindM_Ok_intro _ _ _ E2). exact H1.
Qed.

(** Once a key is set, only a later named field of that key changes it. *)
Lemma structLoop_keeps name v post o response final :
  Forall (fun p => setsKey name (fst p) = false) post ->
  alist_lookup name response = Some v ->
  result (loop post o response) = Ok final ->
  alist_lookup name final = Some v.
Proof.
  intros F. revert response.
  induction F as [|[ft fv] post S F IH]; intros response L H; cbn in *.
  - congruence.
  - unfold setsKey in S. destruct (Anonymous ft); cbn in S.
    + apply bindM_Ok in H as [u [E1 H]]. apply bindM_Ok in H as [r [E2 H]].
      apply bindM_Ok in H as [em [E3 H]]. apply IH in H; [exact H|].
      now rewrite mergeEmbedded_lookup, L.
    + destruct (exported (Name ft)); cbn in S; [|now apply IH in H].
      destruct (String.eqb (ResponseTag ft) "-"); [now apply IH in H|].
      apply bindM_Ok in H as [so [E1 H]]. apply bindM_Ok in H as [r [E2 H]].
      apply IH in H; [exact H|].
      rewrite alist_lookup_set, String.eqb_sym, S. exact L.
Qed.


End StructLoopFacts.

(** ** Embedded fields *)

Lemma embedding_examples :
  result (createStructResponse "Outer" embeddedFirst None None)
  = Ok (objxMapValue [("x", intValue 2); ("y", intValue 10)]) /\
  result (createStructResponse "Outer" embeddedLast None None)
  = Ok (objxMapValue [("x", intValue 2); ("y", intValue 10)]).
Proof. split; reflexivity. Qed.



(** ** Mappings under nil options *)

Lemma SetMapIndex_lookup mt key item response response' :
  result (SetMapIndex mt key item response) = Ok response' ->
  forall k, alist_lookup k response' =
            if String.eqb k key then stored item else alist_lookup k response.
Proof.
  unfold SetMapIndex. intros H k. destruct item as [|tn ms body]; cbn in *.
  - injection H as <-. apply alist_lookup_delete.
  - destruct (elem mt) as [|t]; [|destruct (String.eqb tn t)]; cbn in H;
      try discriminate H; injection H as <-; apply alist_lookup_set.
Qed.

Section MapLoopFacts.
Variable renderValue : value -> options -> M value.

Lemma mapLoop_cons_nil_options mt key v rest response :
  mapLoop renderValue mt ((key, v) :: rest) None response =
  if key_is_string mt then
    do itemResponse <~ renderValue v None in
    do response' <~ SetMapIndex mt key itemResponse response in
    mapLoop renderValue mt rest None response'
  else panic "interface conversion: interface {} is not string".
Proof. reflexivity. Qed.

Lemma mapLoop_nil_options mt entries response final :
  List.NoDup (map fst entries) ->
  result (mapLoop renderValue mt entries None response) = Ok final ->
  (forall k v, In (k, v) entries ->
               exists r, result (renderValue v None) = Ok r /\
                         alist_lookup k final = stored r) /\
  (forall k, ~ In k (map fst entries) -> alist_lookup k final = alist_lookup k response).
Proof.
  revert response. induction entries as [|[k0 v0] rest IH]; intros response D H.
  - cbn in H. injection H as <-. split; [intros k v []|reflexivity].
  - cbn in D. apply List.NoDup_cons_iff in D. destruct D as [N0 D].
    rewrite mapLoop_cons_nil_options in H.
    destruct (key_is_string mt); [|discriminate H].
    apply bindM_Ok in H as [r0 [E1 H]]. apply bindM_Ok in H as [response' [E2 H]].
    pose proof (SetMapIndex_lookup _ _ _ _ _ E2) as L.
    destruct (IH response' D H) as [I1 I2]. split.
    + intros k v [E|I].
      * injection E as <- <-. exists r0. split; [exact E1|].
        rewrite (I2 k0 N0), L. now rewrite String.eqb_refl.
      * apply I1, I.
    + intros k N. cbn in N. rewrite I2 by tauto. rewrite L.
      destruct (String.eqb k k0) eqn:K; [|reflexivity].
      apply String.eqb_eq in K. subst k0. tauto.
Qed.

Lemma mapLoop_interface_total mt entries response :
  key_is_string mt = true -> elem mt = ElemInterface ->
  Forall (fun kv => exists r, result (renderValue (snd kv) None) = Ok r) entries ->
  exists final, result (mapLoop renderValue mt entries None response) = Ok final.
Proof.
  intros KS EI F. revert response.
  induction F as [|[k0 v0] rest [r0 E] F IH]; intros response.
  - cbn. eauto.
  - rewrite mapLoop_cons_nil_options, KS.
    cbn in E. rewrite (bindM_Ok_intro _ _ _ E).
    assert (S : exists response', result (SetMapIndex mt k0 r0 response) = Ok response').
    { unfold SetMapIndex. destruct r0; [cbn; eauto|]. rewrite EI. cbn. eauto. }
    destruct S as [response' S]. rewrite (bindM_Ok_intro _ _ _ S). apply IH.
Qed.
End MapLoopFacts.

(** C10. A mapping rendered with nil options.  When the render
    returns, every key of the mapping whose value renders to nil is
    not a key of the response at all, every other key holds its
    rendered value, and the response has no further key; and the
    render does return for a [map[string]interface{}] whose values
    render. *)
Theorem nil_valued_entries_are_absent tn ms mt entries c :
  List.NoDup (map fst entries) ->
  (forall out,
      result (createMapResponse tn ms mt entries None c) = Ok out ->
      exists response,
        out = Val tn ms (KMap mt response) /\
        (forall k v, In (k, v) entries ->
                     exists r, result (createResponseValue v None c) = Ok r /\
                               alist_lookup k response = stored r /\
                               (r = VNil -> alist_has k response = false)) /\
        (forall k, ~ In k (map fst entries) -> alist_lookup k response = None)) /\
  (key_is_string mt = true -> elem mt = ElemInterface ->
   Forall (fun kv => exists r, result (createResponseValue (snd kv) None c) = Ok r) entries ->
   exists response,
     result (createMapResponse tn ms mt entries None c) = Ok (Val tn ms (KMap mt response))).
Proof.
  intros D. split.
  - intros out H. unfold createMapResponse, mapBody in H.
    apply bindM_Ok in H as [response [L H]]. cbn in H. injection H as <-.
    exists response. split; [reflexivity|].
    destruct (mapLoop_nil_options _ _ _ _ _ D L) as [I1 I2]. split.
    + intros k v I. destruct (I1 k v I) as [r [E1 E2]]. exists r.
      repeat split; [exact E1 | exact E2 |].
      intros ->. unfold alist_has. now rewrite E2.
    + intros k N. now rewrite (I2 k N).
  - intros KS EI F.
    destruct (mapLoop_interface_total (fun v o' => createResponseValue v o' c)
                mt entries [] KS EI F) as [final E].
    exists final. unfold createMapResponse, mapBody.
    now rewrite (bindM_Ok_intro _ _ _ E).
Qed.

Lemma nil_valued_entries_are_absent_witness :
  List.NoDup (map fst nullableEntries) /\
  (exists response,
      Val "map[string]interface {}" noMethods (KMap msiType [("b", intValue 1)])
      = Val "map[string]interface {}" noMethods (KMap msiType response) /\
      (forall k v, In (k, v) nullableEntries ->
                   exists r, result (createResponseValue v None None) = Ok r /\
                             alist_lookup k response = stored r /\
                             (r = VNil -> alist_has k response = false)) /\
      (forall k, ~ In k (map fst nullableEntries) -> alist_lookup k response = None)) /\
  (exists response,
      result (createMapResponse "map[string]interface {}" noMethods msiType
                nullableEntries None None)
      = Ok (Val "map[string]interface {}" noMethods (KMap msiType response))).
Proof.
  assert (D : List.NoDup (map fst nullableEntries)).
  { repeat constructor; cbn; intuition discriminate. }
  split; [exact D|]. split.
  - apply (proj1 (nil_valued_entries_are_absent "map[string]interface {}" noMethods msiType
                    nullableEntries None D)).
    reflexivity.
  - apply (proj2 (nil_valued_entries_are_absent "map[string]interface {}" noMethods msiType
                    nullableEntries None D)).
    + reflexivity.
    + reflexivity.
    + repeat constructor; eexists; reflexivity.
Defined.

(** ** Input-error collection *)

Lemma rtype_induction (P : rtype -> Prop) :
  (forall validator receiver convertibleFrom, P (RType validator receiver convertibleFrom None)) ->
  (forall validator receiver convertibleFrom fields,
      Forall (fun ft => P (snd ft)) fields ->
      P (RType validator receiver convertibleFrom (Some fields))) ->
  forall t, P t.
Proof.
  intros HN HS. fix IH 1. intros [v r c [fields|]]; [|apply HN].
  apply HS. induction fields as [|[f t] fields IHf]; constructor.
  - apply IH.
  - exact IHf.
Qed.

Lemma namedLoop_app l1 l2 st :
  namedLoop (l1 ++ l2) st =
  match namedLoop l1 st with
  | Ok st' => namedLoop l2 st'
  | Panic msg => Panic msg
  end.
Proof.
  revert st. induction l1 as [|[f t] l1 IH]; intros st; cbn; [reflexivity|].
  destruct (namedField f t st); [apply IH | reflexivity].
Qed.

(** On a walkable type the recursion is the loop body run over the
    named fields in walk order. *)
Lemma addInputErrors_walked dataType :
  walkable dataType = true ->
  forall st, addInputErrors dataType st = namedLoop (walkedFields dataType) st.
Proof.
  induction dataType as [v r c|v r c fields IH] using rtype_induction; [discriminate|].
  cbn [walkable addInputErrors walkedFields]. intros W.
  induction IH as [|[f t] fields IHt _ IHf]; intros st; [reflexivity|].
  cbn [forallb inputLoop flat_map fst snd] in *. apply andb_prop in W as [W1 W2].
  rewrite namedLoop_app. specialize (IHf W2).
  destruct (in_anonymous f).
  - rewrite (IHt W1). destruct (namedLoop (walkedFields t) st); [apply IHf | reflexivity].
  - cbn [namedLoop]. destruct (namedField f t st); [apply IHf | reflexivity].
Qed.

Lemma namedIn_cons name f t l :
  namedIn name ((f, t) :: l) = String.eqb (in_name f) name || namedIn name l.
Proof. reflexivity. Qed.

Lemma requiredIn_cons name f t l :
  requiredIn name ((f, t) :: l) =
  (String.eqb (in_name f) name && negb (isOptional (in_args f))) || requiredIn name l.
Proof. reflexivity. Qed.

Lemma checkInput_returns name fieldType v (notifications : MessageMap) :
  v <> InNil ->
  exists notifications',
    checkInput name fieldType v notifications = Ok notifications' /\
    forall k, k <> name -> notifications' !! k = notifications !! k.
Proof.
  intros N. destruct fieldType as [[validate|] [receive|] convertibleFrom fields]; cbn.
  1,2: destruct (validate v); eexists; split; try reflexivity; intros k K;
       unfold SetInputMessage; now rewrite ?lookup_insert_ne by congruence.
  - destruct (receive v); eexists; split; try reflexivity; intros k K;
      unfold SetInputMessage; now rewrite ?lookup_insert_ne by congruence.
  - destruct v as [|tn repr]; [contradiction|].
    destruct (convertibleFrom tn); eexists; split; try reflexivity; intros k K;
      unfold SetInputMessage; now rewrite ?lookup_insert_ne by congruence.
Qed.

Lemma namedLoop_spec l :
  forall (params : inputParams) (notifications : MessageMap),
    (forall k, params !! k <> Some InNil) ->
    exists (params' : inputParams) (notifications' : MessageMap),
      namedLoop l (params, notifications) = Ok (params', notifications') /\
      (forall k, params' !! k = if namedIn k l then None else params !! k) /\
      (forall k, params !! k = None ->
                 notifications' !! k =
                 if requiredIn k l then Some "No input for required field"
                 else notifications !! k).
Proof.
  induction l as [|[f t] l IH]; intros p n H.
  - exists p, n. repeat split.
  - cbn [namedLoop]. unfold namedField. destruct (p !! in_name f) as [v|] eqn:E.
    + destruct (checkInput_returns (in_name f) t v n) as [n1 [C1 C2]].
      { intros ->. exact (H _ E). }
      rewrite C1.
      destruct (IH (delete (in_name f) p) n1) as [p' [n' [L [A B]]]].
      { intros k K. apply lookup_delete_Some in K as [_ K]. exact (H _ K). }
      exists p', n'. split; [exact L|]. split.
      * intros k. rewrite A, namedIn_cons.
        destruct (String.eqb (in_name f) k) eqn:K; cbn [orb].
        -- apply String.eqb_eq in K. subst k.
           destruct (namedIn (in_name f) l); [reflexivity|]. apply lookup_delete_eq.
        -- apply String.eqb_neq in K.
           destruct (namedIn k l); [reflexivity|]. now apply lookup_delete_ne.
      * intros k Pk. assert (K : k <> in_name f) by congruence.
        rewrite B by (rewrite lookup_delete_ne; [exact Pk | congruence]).
        rewrite requiredIn_cons.
        assert (K' : String.eqb (in_name f) k = false) by (apply String.eqb_neq; congruence).
        rewrite K'. cbn [andb orb]. now rewrite (C2 k K).
    + destruct (isOptional (in_args f)) eqn:O; cbn [negb].
      * destruct (IH p n H) as [p' [n' [L [A B]]]].
        exists p', n'. split; [exact L|]. split.
        -- intros k. rewrite A, namedIn_cons.
           destruct (String.eqb (in_name f) k) eqn:K; cbn [orb]; [|reflexivity].
           apply String.eqb_eq in K. subst k. rewrite E. now destruct (namedIn (in_name f) l).
        -- intros k Pk. rewrite (B k Pk), requiredIn_cons, O. cbn [negb].
           now rewrite andb_false_r.
      * destruct (IH p (SetInputMessage (in_name f) "No input for required field" n) H)
          as [p' [n' [L [A B]]]].
        exists p', n'. split; [exact L|]. split.
        -- intros k. rewrite A, namedIn_cons.
           destruct (String.eqb (in_name f) k) eqn:K; cbn [orb]; [|reflexivity].
           apply String.eqb_eq in K. subst k. rewrite E. now destruct (namedIn (in_name f) l).
        -- intros k Pk. rewrite (B k Pk), requiredIn_cons, O. cbn [negb].
           rewrite andb_true_r. unfold SetInputMessage.
           destruct (String.eqb (in_name f) k) eqn:K; cbn [orb].
           ++ apply String.eqb_eq in K. subst k. rewrite lookup_insert_eq.
              now destruct (requiredIn (in_name f) l).
           ++ apply String.eqb_neq in K. now rewrite lookup_insert_ne.
Qed.

Lemma leftover_lookup (params : inputParams) (notifications : MessageMap) message k :
  map_fold (fun key _ n => SetInputMessage key message n) notifications params !! k =
  match params !! k with
  | Some _ => Some message
  | None => notifications !! k
  end.
Proof.
  revert k.
  apply (map_fold_weak_ind
           (fun (r : MessageMap) (m : inputParams) =>
              forall k, r !! k = match m !! k with
                                 | Some _ => Some message
                                 | None => notifications !! k
                                 end)).
  - intros k. now rewrite lookup_empty.
  - intros i x m r _ IH k. unfold SetInputMessage.
    destruct (decide (i = k)) as [->|N].
    + now rewrite !lookup_insert_eq.
    + rewrite !lookup_insert_ne by exact N. apply IH.
Qed.

Lemma input_error_examples :
  RespondWithInputErrors personType noInput ∅
  = Ok {[ "Name" := "No input for required field" ]} /\
  RespondWithInputErrors personType nameAndExtra ∅
  = Ok {[ "Extra" := "No target field found for this input" ]}.
Proof. split; vm_compute; reflexivity. Qed.

(** Input-error collection on a walk that returns.  At a named
    field whose input name has no entry in the parameter map, the
    message "No input for
    required field" is recorded when the field is not optional and
    nothing is recorded when it is optional; an entry that matches a
    field is removed from the parameter map.  Over the whole walk of a
    target type (entered through anonymous fields as well), for
    parameters without nil values: the walk returns; a name that has no
    parameter ends with "No input for required field" when one of its
    fields is required and with what it had before when none is; the
    parameters left are those that no field is named after; and each
    of them ends with "No target field found for this input". *)
Theorem input_error_collection :
  (forall f fieldType (params : inputParams) (notifications : MessageMap),
      params !! in_name f = None ->
      namedField f fieldType (params, notifications) =
      Ok (params,
          if isOptional (in_args f) then notifications
          else SetInputMessage (in_name f) "No input for required field" notifications)) /\
  (forall f fieldType (params : inputParams) (notifications : MessageMap) v st',
      params !! in_name f = Some v ->
      namedField f fieldType (params, notifications) = Ok st' ->
      fst st' = delete (in_name f) params) /\
  (forall dataType (params : inputParams) (notifications : MessageMap),
      walkable dataType = true ->
      (forall k, params !! k <> Some InNil) ->
      exists (params' : inputParams) (notifications' final : MessageMap),
        addInputErrors dataType (params, notifications) = Ok (params', notifications') /\
        RespondWithInputErrors dataType params notifications = Ok final /\
        (forall f fieldType,
            In (f, fieldType) (walkedFields dataType) ->
            params !! in_name f = None -> isOptional (in_args f) = false ->
            final !! in_name f = Some "No input for required field") /\
        (forall name,
            params !! name = None -> requiredIn name (walkedFields dataType) = false ->
            final !! name = notifications !! name) /\
        (forall name,
            params' !! name =
            if namedIn name (walkedFields dataType) then None else params !! name) /\
        (forall name v,
            params' !! name = Some v ->
            final !! name = Some "No target field found for this input")).
Proof.
  split; [|split].
  - intros f ft p n E. unfold namedField. rewrite E.
    now destruct (isOptional (in_args f)).
  - intros f ft p n v st' E H. unfold namedField in H. rewrite E in H.
    destruct (checkInput (in_name f) ft v n); [|discriminate H]. now injection H as <-.
  - intros dataType p n W H.
    destruct (namedLoop_spec (walkedFields dataType) p n H) as [p' [n' [L [A B]]]].
    exists p', n',
      (map_fold (fun key _ m => SetInputMessage key "No target field found for this input" m)
         n' p').
    rewrite <- (addInputErrors_walked dataType W) in L.
    split; [exact L|]. split; [unfold RespondWithInputErrors; now rewrite L|].
    assert (Z : forall k, p !! k = None -> p' !! k = None).
    { intros k E. rewrite A, E. now destruct (namedIn k (walkedFields dataType)). }
    repeat split.
    + intros f ft I E O. rewrite leftover_lookup, (Z _ E), (B _ E).
      assert (R : requiredIn (in_name f) (walkedFields dataType) = true).
      { apply existsb_exists. exists (f, ft). split; [exact I|].
        cbn. now rewrite String.eqb_refl, O. }
      now rewrite R.
    + intros name E R. now rewrite leftover_lookup, (Z _ E), (B _ E), R.
    + exact A.
    + intros name v E. now rewrite leftover_lookup, E.
Qed.

Lemma input_error_collection_witness :
  exists (params' : inputParams) (notifications' final : MessageMap),
    addInputErrors personType (nameAndExtra, ∅) = Ok (params', notifications') /\
    RespondWithInputErrors personType nameAndExtra ∅ = Ok final /\
    (forall f fieldType,
        In (f, fieldType) (walkedFields personType) ->
        nameAndExtra !! in_name f = None -> isOptional (in_args f) = false ->
        final !! in_name f = Some "No input for required field") /\
    (forall name,
        nameAndExtra !! name = None -> requiredIn name (walkedFields personType) = false ->
        final !! name = (∅ : MessageMap) !! name) /\
    (forall name,
        params' !! name =
        if namedIn name (walkedFields personType) then None else nameAndExtra !! name) /\
    (forall name v,
        params' !! name = Some v ->
        final !! name = Some "No target field found for this input").
Proof.
  apply (proj2 (proj2 input_error_collection) personType nameAndExtra ∅).
  - reflexivity.
  - intros k H. unfold nameAndExtra in H.
    apply lookup_insert_Some in H as [[_ H]|[_ H]]; [discriminate H|].
    apply lookup_insert_Some in H as [[_ H]|[_ H]]; [discriminate H|].
    rewrite lookup_empty in H. discriminate H.
Defined.

(** C9, at the failing input.  The target type has the fields
    [Name string] (required) and [Age int] (optional); the input is
    [{"Name": null, "Extra": "b"}].  By the claim ["Name"] is removed
    from the parameters and ["Extra"] is reported as an input without a
    target field.  The walk panics at the convertibility check of
    ["Name"] ([reflect.TypeOf(nil)] is nil) and nothing is recorded or
    reported; with a string under ["Name"] the same input is reported
    as the claim says. *)
Theorem nil_input_aborts_collection :
  addInputErrors personType (nullNameAndExtra, ∅)
  = Panic "runtime error: invalid memory address or nil pointer dereference" /\
  RespondWithInputErrors personType nullNameAndExtra ∅
  = Panic "runtime error: invalid memory address or nil pointer dereference" /\
  RespondWithInputErrors personType nameAndExtra ∅
  = Ok {[ "Extra" := "No target field found for this input" ]}.
Proof. repeat split; vm_compute; reflexivity. Qed.

(** * Further properties of the renderer *)

(** ** Sequences keep their length and order *)

Lemma sliceLoop_elements renderValue elems o response final :
  result (sliceLoop renderValue elems o response) = Ok final ->
  exists rs, final = response ++ rs /\
             Forall2 (fun e r => result (renderValue e o) = Ok r) elems rs.
Proof.
  revert response. induction elems as [|e rest IH]; intros response H; cbn in H.
  - injection H as <-. exists []. split; [now rewrite app_nil_r | constructor].
  - apply bindM_Ok in H as [r [E H]]. apply IH in H as [rs [-> F]].
    exists (r :: rs). split; [now rewrite <- app_assoc | now constructor].
Qed.

(** X1. A sequence that renders becomes a [[]interface{}] of the same
    length whose i-th element is the rendering of the i-th element,
    each under the same options as the sequence. *)
Theorem createSliceResponse_elementwise elems o c out :
  result (createSliceResponse elems o c) = Ok out ->
  exists rs,
    out = Val "[]interface {}" noMethods (KSlice rs) /\
    length rs = length elems /\
    Forall2 (fun e r => result (createResponseValue e o c) = Ok r) elems rs.
Proof.
  unfold createSliceResponse, sliceBody. intros H.
  apply bindM_Ok in H as [response [L H]]. cbn in H. injection H as <-.
  apply sliceLoop_elements in L as [rs [-> F]]. exists rs.
  split; [reflexivity|]. split; [|exact F].
  symmetry. eapply List.Forall2_length. exact F.
Qed.

Lemma createSliceResponse_elementwise_witness :
  exists rs,
    Val "[]interface {}" noMethods (KSlice [intValue 7; VNil])
    = Val "[]interface {}" noMethods (KSlice rs) /\
    length rs = length [NullInt 7 true; NullInt 7 false] /\
    Forall2 (fun e r => result (createResponseValue e None None) = Ok r)
      [NullInt 7 true; NullInt 7 false] rs.
Proof.
  apply (createSliceResponse_elementwise [NullInt 7 true; NullInt 7 false] None None).
  reflexivity.
Defined.

(** ** Mappings never gain keys *)

Lemma mapLoop_keys renderValue mt entries o response final k :
  result (mapLoop renderValue mt entries o response) = Ok final ->
  alist_has k final = true ->
  alist_has k response = true \/ In k (map fst entries).
Proof.
  revert response. induction entries as [|[k0 v0] rest IH]; intros response H K.
  - cbn in H. injection H as <-. now left.
  - cbn [mapLoop] in H. destruct (key_is_string mt); [|discriminate H].
    apply bindM_Ok in H as [eo [_ H]]. apply bindM_Ok in H as [r [_ H]].
    apply bindM_Ok in H as [response' [S H]].
    destruct (IH _ H K) as [I|I]; [|right; now right].
    unfold alist_has in I. rewrite (SetMapIndex_lookup _ _ _ _ _ S) in I.
    destruct (String.eqb k k0) eqn:E.
    + apply String.eqb_eq in E. subst k0. right. now left.
    + left. exact I.
Qed.

(** X2. Whatever the options, a mapping that renders becomes a
    mapping of the same type (same type name, method set, key and
    element types) and every key of the result is a key of the
    original: rendering drops keys (values rendered to nil) but never
    invents or renames one. *)
Theorem createMapResponse_keys tn ms mt entries o c out :
  result (createMapResponse tn ms mt entries o c) = Ok out ->
  exists response,
    out = Val tn ms (KMap mt response) /\
    forall k, alist_has k response = true -> In k (map fst entries).
Proof.
  unfold createMapResponse, mapBody. intros H.
  apply bindM_Ok in H as [response [L H]]. cbn in H. injection H as <-.
  exists response. split; [reflexivity|]. intros k K.
  destruct (mapLoop_keys _ _ _ _ _ _ k L K) as [I|I]; [discriminate I | exact I].
Qed.

Lemma createMapResponse_keys_witness :
  exists response,
    Val "map[string]interface {}" noMethods (KMap msiType [("b", intValue 1)])
    = Val "map[string]interface {}" noMethods (KMap msiType response) /\
    forall k, alist_has k response = true -> In k (map fst nullableEntries).
Proof.
  apply (createMapResponse_keys "map[string]interface {}" noMethods msiType
           nullableEntries None None).
  reflexivity.
Defined.

(** ** The keys of a struct without embedded fields *)

Lemma structLoop_named_keys renderEmbedded renderValue fields o response final :
  Forall (fun p => Anonymous (fst p) = false) fields ->
  result (structLoop renderEmbedded renderValue fields o response) = Ok final ->
  forall k, alist_has k final =
            alist_has k response
            || (negb (String.eqb k "-") && existsb (fun p => setsKey k (fst p)) fields).
Proof.
  intros F. revert response.
  induction F as [|[ft fv] rest A F IH]; intros response H k; cbn in H.
  - injection H as <-. cbn. now rewrite andb_false_r, orb_false_r.
  - cbn [fst] in A. rewrite A in H. cbn [existsb fst]. unfold setsKey at 1.
    rewrite A. cbn [negb andb].
    destruct (exported (Name ft)); cbn [andb].
    + destruct (String.eqb (ResponseTag ft) "-") eqn:S.
      * rewrite (IH _ H k). apply String.eqb_eq in S. rewrite S.
        destruct (String.eqb "-" k) eqn:E; cbn [orb]; [|reflexivity].
        apply String.eqb_eq in E. subst k. cbn. now rewrite orb_false_r.
      * apply bindM_Ok in H as [so [_ H]]. apply bindM_Ok in H as [r [_ H]].
        rewrite (IH _ H k). unfold alist_has at 1. rewrite alist_lookup_set.
        rewrite (String.eqb_sym k (ResponseTag ft)).
        destruct (String.eqb (ResponseTag ft) k) eqn:E; cbn [orb].
        -- apply String.eqb_eq in E. subst k. rewrite S. cbn. now rewrite orb_true_r.
        -- reflexivity.
    + now rewrite (IH _ H k).
Qed.

(** X3. For a struct without embedded fields that is walked (no
    nullable unwrapping) and renders, the keys of the response are
    exactly the resolved names of its visible fields that are not
    suppressed: unexported fields and fields resolving to ["-"]
    contribute no key, and no other key appears. *)
Theorem createStructResponse_keys tn fields o c out :
  Forall (fun p => Anonymous (fst p) = false) fields ->
  result (createNullableDbResponse tn fields) = Ok None ->
  result (createStructResponse tn fields o c) = Ok out ->
  exists response,
    out = objxMapValue response /\
    forall k, alist_has k response = true <->
              k <> "-" /\ exists ft fv, In (ft, fv) fields /\ setsKey k ft = true.
Proof.
  intros F U H. unfold createStructResponse, structBody in H.
  rewrite (bindM_Ok_intro _ _ _ U) in H.
  apply bindM_Ok in H as [response [L H]]. cbn in H. injection H as <-.
  exists response. split; [reflexivity|]. intros k.
  rewrite (structLoop_named_keys _ _ _ _ _ _ F L k). cbn [alist_has alist_lookup orb].
  rewrite andb_true_iff, negb_true_iff, String.eqb_neq, existsb_exists.
  split.
  - intros [N [[ft fv] [I S]]]. split; [exact N|]. now exists ft, fv.
  - intros [N [ft [fv [I S]]]]. split; [exact N|]. now exists (ft, fv).
Qed.

Lemma createStructResponse_keys_witness :
  exists response,
    objxMapValue [("x", intValue 1); ("y", intValue 10)] = objxMapValue response /\
    forall k, alist_has k response = true <->
              k <> "-" /\
              exists ft fv, In (ft, fv) [(field "X", intValue 1); (field "Y", intValue 10)] /\
                            setsKey k ft = true.
Proof.
  apply (createStructResponse_keys "Base"
           [(field "X", intValue 1); (field "Y", intValue 10)] None None).
  - repeat constructor.
  - reflexivity.
  - reflexivity.
Defined.

(** ** Fields that make a struct fail to render *)







(** ** Suppression comes from the response tag alone *)

Lemma ToLower_exported_not_dash name :
  exported name = true -> ToLower name <> "-".
Proof.
  destruct name as [|b rest]; [discriminate|]. cbn [exported ToLower].
  intros U E. injection E as E _. revert U E.
  destruct b as [[] [] [] [] [] [] [] []]; vm_compute; congruence.
Qed.

(** X7. For a visible field, the resolved name is ["-"] exactly when
    the response tag says ["-"]: a db tag of ["-"] never suppresses a
    field, it only makes the resolver fall back to the lower-cased
    name. *)
Theorem suppressed_only_by_response_tag f :
  exported (Name f) = true ->
  (ResponseTag f = "-" <-> TagGet f "response" = "-").
Proof.
  intros X. unfold ResponseTag. split.
  - destruct (String.eqb (TagGet f "response") "") eqn:R; cbn [negb]; [|easy].
    destruct (negb (String.eqb (Name f) "Id")
              && (negb (String.eqb (TagGet f "db") "")
                  && negb (String.eqb (TagGet f "db") "-"))) eqn:D.
    + intros E. rewrite E in D. cbn in D. now rewrite !andb_false_r in D.
    + intros E. now apply ToLower_exported_not_dash in E.
  - intros E. now rewrite E.
Qed.

Lemma suppressed_only_by_response_tag_witness :
  ResponseTag (mkField "Password" false [("db", "-")]) = "-"
  <-> TagGet (mkField "Password" false [("db", "-")]) "response" = "-".
Proof.
  apply (suppressed_only_by_response_tag (mkField "Password" false [("db", "-")])).
  reflexivity.
Defined.

(** ** The wildcard entry and the "full" directive *)

Lemma bindM_ret {A B} (a : A) (k : A -> M B) : bindM (ret a) k = k a.
Proof. reflexivity. Qed.

(** X8. A visible field with no options entry of its own, under
    options whose wildcard entry sets the "full" directive, is rendered
    structurally with the wildcard entry as its options: its
    [ResponseValue], [String] and [Error] methods are not consulted. *)
Theorem wildcard_full_forces_structural o m ft fv rest c response :
  Anonymous ft = false -> exported (Name ft) = true -> ResponseTag ft <> "-" ->
  Has o (ResponseTag ft) = false -> Get o "*" = OptMSI m -> fullMode (Some m) = true ->
  structLoop (fun v => CreateResponse v [ArgOptions o; ArgConstructor c])
    (fun v o' => createResponseValue v o' c) ((ft, fv) :: rest) o response
  = do r <~ createResponse fv true (Some m) c in
    structLoop (fun v => CreateResponse v [ArgOptions o; ArgConstructor c])
      (fun v o' => createResponseValue v o' c) rest o
      (alist_set (ResponseTag ft) r response).
Proof.
  intros A X N H W F. cbn [structLoop]. rewrite A, X.
  apply String.eqb_neq in N. rewrite N.
  assert (S : structSubOptions o (ResponseTag ft) = ret (Some m)).
  { unfold structSubOptions. destruct o as [om|]; [|discriminate W].
    cbn [options_is_nil negb andb]. rewrite H. unfold Has. rewrite W. reflexivity. }
  rewrite S, bindM_ret. unfold createResponseValue, dispatchValue. rewrite F. reflexivity.
Qed.

Lemma wildcard_full_forces_structural_witness :
  result (structLoop
            (fun v => CreateResponse v [ArgOptions (Some [("*", OptMSI [("type", OptStr "full")])]);
                                        ArgConstructor None])
            (fun v o' => createResponseValue v o' None)
            [(field "Album", lazyStringer)]
            (Some [("*", OptMSI [("type", OptStr "full")])]) [])
  = result (do r <~ createResponse lazyStringer true (Some [("type", OptStr "full")]) None in
            ret [("album", r)]).
Proof.
  rewrite (wildcard_full_forces_structural
             (Some [("*", OptMSI [("type", OptStr "full")])]) [("type", OptStr "full")]
             (field "Album") lazyStringer [] None []); try reflexivity.
  discriminate.
Defined.

(** ** Without options the constructor plays no part *)

(** Induction over a value: through what its methods return, through
    its pointer target and through its fields, elements and entries. *)
Lemma value_induction (P : value -> Prop) :
  P VNil ->
  (forall tn ms body,
      (forall f o, LazyLoad ms = Some f -> P (f o)) ->
      (forall r, ResponseObject ms = Some r -> P r) ->
      match body with
      | KStruct fields => Forall (fun p => P (snd p)) fields
      | KSlice elems => Forall P elems
      | KMap _ entries => Forall (fun p => P (snd p)) entries
      | KPtr (Some target) => P target
      | _ => True
      end ->
      P (Val tn ms body)) ->
  forall v, P v.
Proof.
  intros HN HV. fix IH 1. intros [|tn [ll ro rv s e] body]; [exact HN|].
  apply HV.
  - destruct ll as [f|]; cbn; intros f' o E; [|discriminate E].
    injection E as <-. apply IH.
  - destruct ro as [r|]; cbn; intros r' E; [|discriminate E].
    injection E as <-. apply IH.
  - destruct body as [b|z|str|fields|elems|mt entries|[target|]|]; try exact I.
    + induction fields as [|[ft fv] fields IHf]; constructor; [apply IH | exact IHf].
    + induction elems as [|x elems IHe]; constructor; [apply IH | exact IHe].
    + induction entries as [|[k v] entries IHe]; constructor; [apply IH | exact IHe].
    + apply IH.
Qed.

Section LoopsUnderNilOptions.
Variables renderEmbedded renderEmbedded' : value -> M value.
Variables renderValue renderValue' : value -> options -> M value.

Lemma structLoop_nil_ext fields response :
  Forall (fun p => renderEmbedded (snd p) = renderEmbedded' (snd p) /\
                   renderValue (snd p) None = renderValue' (snd p) None) fields ->
  structLoop renderEmbedded renderValue fields None response =
  structLoop renderEmbedded' renderValue' fields None response.
Proof.
  intros F. revert response.
  induction F as [|[ft fv] rest [E1 E2] F IH]; intros response; cbn [structLoop].
  - reflexivity.
  - cbn [snd] in E1, E2. destruct (Anonymous ft).
    + apply bindM_ext; intros _. rewrite E1.
      apply bindM_ext; intros r. apply bindM_ext; intros em. apply IH.
    + destruct (exported (Name ft)); [|apply IH].
      destruct (String.eqb (ResponseTag ft) "-"); [apply IH|].
      change (structSubOptions None (ResponseTag ft)) with (@ret options None).
      rewrite !bindM_ret, E2. apply bindM_ext; intros r. apply IH.
Qed.

Lemma sliceLoop_nil_ext elems response :
  Forall (fun e => renderValue e None = renderValue' e None) elems ->
  sliceLoop renderValue elems None response = sliceLoop renderValue' elems None response.
Proof.
  intros F. revert response.
  induction F as [|e rest E F IH]; intros response; cbn [sliceLoop].
  - reflexivity.
  - rewrite E. apply bindM_ext; intros r. apply IH.
Qed.

Lemma mapLoop_nil_ext mt entries response :
  Forall (fun p => renderValue (snd p) None = renderValue' (snd p) None) entries ->
  mapLoop renderValue mt entries None response =
  mapLoop renderValue' mt entries None response.
Proof.
  intros F. revert response.
  induction F as [|[k v] rest E F IH]; intros response.
  - reflexivity.
  - rewrite !mapLoop_cons_nil_options. cbn [snd] in E. rewrite E.
    destruct (key_is_string mt); [|reflexivity].
    apply bindM_ext; intros r. apply bindM_ext; intros r'. apply IH.
Qed.
End LoopsUnderNilOptions.

Lemma CreateResponse_options_constructor data o c :
  CreateResponse data [ArgOptions o; ArgConstructor c]
  = errorShortCircuit (createResponse data false o c) data.
Proof. reflexivity. Qed.

Lemma CreateResponse_no_options data :
  CreateResponse data [] = errorShortCircuit (createResponse data false None None) data.
Proof. reflexivity. Qed.

Lemma switch_constructor_free tn ms body :
  match body with
  | KStruct fields => Forall (fun p => constructorFree (snd p)) fields
  | KSlice elems => Forall constructorFree elems
  | KMap _ entries => Forall (fun p => constructorFree (snd p)) entries
  | _ => True
  end ->
  switchConstructorFree (Val tn ms body).
Proof.
  intros B rd isSub c c'.
  destruct body as [b|z|str|fields|elems|mt entries|target|]; try reflexivity.
  - cbn [kindSwitch]. unfold createStructResponse, structBody.
    apply bindM_ext; intros [n|]; [reflexivity|].
    rewrite (structLoop_nil_ext _ (fun v => CreateResponse v [ArgOptions None; ArgConstructor c'])
               _ (fun v o' => createResponseValue v o' c')); [reflexivity|].
    eapply List.Forall_impl; [|exact B]. intros [ft fv] G. cbn [snd] in *. split.
    + rewrite !CreateResponse_options_constructor. now rewrite (G false c c').
    + unfold createResponseValue. now rewrite (G true c c').
  - cbn [kindSwitch]. unfold createSliceResponse, sliceBody.
    rewrite (sliceLoop_nil_ext _ (fun v o' => createResponseValue v o' c')); [reflexivity|].
    eapply List.Forall_impl; [|exact B]. intros e G.
    unfold createResponseValue. now rewrite (G true c c').
  - cbn [kindSwitch]. unfold createMapResponse, mapBody.
    rewrite (mapLoop_nil_ext _ (fun v o' => createResponseValue v o' c')); [reflexivity|].
    eapply List.Forall_impl; [|exact B]. intros [k v] G. cbn [snd] in *.
    unfold createResponseValue. now rewrite (G true c c').
Qed.

Lemma constructor_free_everywhere v :
  constructorFree v /\ switchConstructorFree v /\ switchConstructorFree (derefOnce v) /\
  switchConstructorFree (substituted v) /\
  switchConstructorFree (derefOnce (substituted v)).
Proof.
  induction v as [|tn ms body IHl IHr IHb] using value_induction.
  - repeat split; intros ? ? ? ?; reflexivity.
  - assert (KV : switchConstructorFree (Val tn ms body)).
    { apply switch_constructor_free.
      destruct body as [b|z|str|fields|elems|mt entries|target|]; try exact I;
        (eapply List.Forall_impl; [|exact IHb]); intros a Ha; apply Ha. }
    assert (KD : switchConstructorFree (derefOnce (Val tn ms body))).
    { destruct body as [b|z|str|fields|elems|mt entries|[target|]|]; try exact KV.
      cbn [derefOnce]. apply IHb. }
    assert (KS : switchConstructorFree (substituted (Val tn ms body))).
    { unfold substituted. cbn [methodsOf].
      destruct (ResponseObject ms) as [r|]; [apply (IHr r eq_refl) | exact KV]. }
    assert (KDS : switchConstructorFree (derefOnce (substituted (Val tn ms body)))).
    { unfold substituted. cbn [methodsOf].
      destruct (ResponseObject ms) as [r|]; [apply (IHr r eq_refl) | exact KD]. }
    repeat split; try assumption.
    intros isSub c c'. rewrite !createResponse_eq.
    apply bindM_ext; intros _. apply bindM_ext; intros _.
    unfold loadedValue. cbn [methodsOf].
    destruct (LazyLoad ms) as [f|]; [apply (IHl f None eq_refl) | apply KDS].
Qed.

(** X9. Under nil options the constructor plays no part: rendering a
    value gives the same result, with the same method calls, whatever
    constructor is passed, the nil constructor included; so
    CreateResponse with no option list equals CreateResponse with nil
    options and any constructor. *)
Theorem nil_options_ignore_constructor :
  (forall data isSubResponse c c',
      createResponse data isSubResponse None c = createResponse data isSubResponse None c') /\
  (forall data c,
      CreateResponse data [ArgOptions None; ArgConstructor c] = CreateResponse data []).
Proof.
  split.
  - intros data. apply constructor_free_everywhere.
  - intros data c. rewrite CreateResponse_options_constructor, CreateResponse_no_options.
    now rewrite (proj1 (constructor_free_everywhere data) false c None).
Qed.

(** ** One level of pointers *)

(** X10. Exactly one pointer is followed.  A pointer to a struct,
    slice or map renders as its target does; a pointer to anything
    else (a scalar, another pointer) and a nil pointer are returned as
    they are, the pointer itself and not its target.  (Here neither
    the pointer type nor the target type has [LazyLoad] or
    [ResponseObject].) *)
Theorem one_pointer_is_followed tn ms target isSubResponse o c :
  plainValue (Val tn ms (KPtr target)) = true ->
  match target with
  | Some t =>
      plainValue t = true ->
      createResponse (Val tn ms (KPtr target)) isSubResponse o c =
      if decomposed t then createResponse t isSubResponse o c
      else ret (Val tn ms (KPtr target))
  | None =>
      createResponse (Val tn ms (KPtr target)) isSubResponse o c
      = ret (Val tn ms (KPtr target))
  end.
Proof.
  destruct ms as [[f|] [r|] rv s e]; intros P; try discriminate P.
  destruct target as [t|]; [|reflexivity].
  destruct t as [|tn' [[f'|] [r'|] rv' s' e'] body']; intros Pt; try discriminate Pt.
  - reflexivity.
  - destruct body' as [b|z|str|fields|elems|mt entries|[t'|]|]; reflexivity.
Qed.

Lemma one_pointer_is_followed_witness :
  (createResponse basePointer false None None = createResponse baseValue false None None) /\
  (createResponse basePointerPointer false None None = ret basePointerPointer).
Proof.
  split.
  - apply (one_pointer_is_followed "*Base" noMethods (Some baseValue) false None None);
      reflexivity.
  - apply (one_pointer_is_followed "**Base" noMethods (Some basePointer) false None None);
      reflexivity.
Defined.

(** * Further properties of input-error collection *)

Lemma namedIn_inputNames k l : namedIn k l = true <-> In k (inputNames l).
Proof.
  unfold namedIn, inputNames. rewrite existsb_exists, in_map_iff. split.
  - intros [p [I E]]. apply String.eqb_eq in E. now exists p.
  - intros [p [E I]]. exists p. split; [exact I|]. now apply String.eqb_eq.
Qed.

Lemma namedIn_false k l : namedIn k l = false <-> ~ In k (inputNames l).
Proof.
  rewrite <- namedIn_inputNames. now destruct (namedIn k l).
Qed.

Lemma checkInput_frame name fieldType v (n n' : MessageMap) :
  checkInput name fieldType v n = Ok n' ->
  (forall k, k <> name -> n' !! k = n !! k) /\
  (forall k, is_Some (n !! k) -> is_Some (n' !! k)).
Proof.
  assert (S : forall msg, (forall k, k <> name -> SetInputMessage name msg n !! k = n !! k) /\
                          (forall k, is_Some (n !! k) ->
                                     is_Some (SetInputMessage name msg n !! k))).
  { intros msg. unfold SetInputMessage. split.
    - intros k K. now rewrite lookup_insert_ne by congruence.
    - intros k K. destruct (decide (name = k)) as [->|N].
      + rewrite lookup_insert_eq. eauto.
      + now rewrite lookup_insert_ne. }
  destruct fieldType as [[validate|] [receive|] convertibleFrom fields]; cbn.
  1,2: destruct (validate v); intros H; injection H as <-; [apply S | easy].
  - destruct (receive v); intros H; injection H as <-; [apply S | easy].
  - destruct v as [|tn repr]; [discriminate|].
    destruct (convertibleFrom tn); intros H; injection H as <-; [easy | apply S].
Qed.

(** What a walk that returns has done to the two maps. *)
Lemma namedLoop_frame l :
  forall (p p' : inputParams) (n n' : MessageMap),
    namedLoop l (p, n) = Ok (p', n') ->
    (forall k, p' !! k = if namedIn k l then None else p !! k) /\
    (forall k, namedIn k l = false -> n' !! k = n !! k) /\
    (forall k, is_Some (n !! k) -> is_Some (n' !! k)).
Proof.
  induction l as [|[f t] l IH]; intros p p' n n' H.
  - cbn in H. injection H as <- <-. repeat split; auto.
  - cbn [namedLoop] in H. unfold namedField in H.
    assert (D : forall (p1 : inputParams) (n1 : MessageMap),
               (forall k, p1 !! k = if String.eqb (in_name f) k then None else p !! k) ->
               (forall k, k <> in_name f -> n1 !! k = n !! k) ->
               (forall k, is_Some (n !! k) -> is_Some (n1 !! k)) ->
               namedLoop l (p1, n1) = Ok (p', n') ->
               (forall k, p' !! k = if namedIn k ((f, t) :: l) then None else p !! k) /\
               (forall k, namedIn k ((f, t) :: l) = false -> n' !! k = n !! k) /\
               (forall k, is_Some (n !! k) -> is_Some (n' !! k))).
    { intros p1 n1 P1 N1 S1 L. destruct (IH _ _ _ _ L) as [A [B C]]. repeat split.
      - intros k. rewrite A, P1, namedIn_cons.
        destruct (String.eqb (in_name f) k); cbn [orb]; [|reflexivity].
        now destruct (namedIn k l).
      - intros k K. rewrite namedIn_cons in K. apply orb_false_iff in K as [K1 K2].
        rewrite (B k K2). apply N1. apply String.eqb_neq in K1. congruence.
      - intros k K. apply C, S1, K. }
    destruct (p !! in_name f) as [v|] eqn:E.
    + destruct (checkInput (in_name f) t v n) as [n1|] eqn:C; [|discriminate H].
      destruct (checkInput_frame _ _ _ _ _ C) as [C1 C2].
      apply (D (delete (in_name f) p) n1); try assumption.
      intros k. destruct (String.eqb (in_name f) k) eqn:K.
      * apply String.eqb_eq in K. subst k. apply lookup_delete_eq.
      * apply String.eqb_neq in K. now apply lookup_delete_ne.
    + assert (P1 : forall k, p !! k = if String.eqb (in_name f) k then None else p !! k).
      { intros k. destruct (String.eqb (in_name f) k) eqn:K; [|reflexivity].
        apply String.eqb_eq in K. now subst k. }
      destruct (negb (isOptional (in_args f))).
      * apply (D p (SetInputMessage (in_name f) "No input for required field" n));
          try assumption; unfold SetInputMessage.
        -- intros k K. now rewrite lookup_insert_ne by congruence.
        -- intros k K. destruct (decide (in_name f = k)) as [->|N].
           ++ rewrite lookup_insert_eq. eauto.
           ++ now rewrite lookup_insert_ne.
      * apply (D p n); auto.
Qed.

(** X11. The walk only consumes and only reports: when it returns,
    the parameters left are a subset of those passed in (none added,
    none changed), every message the notifications held before is
    still answered for (possibly replaced), and a name that no walked
    field has keeps exactly the message it had. *)
Theorem addInputErrors_frame dataType (params params' : inputParams)
    (notifications notifications' : MessageMap) :
  walkable dataType = true ->
  addInputErrors dataType (params, notifications) = Ok (params', notifications') ->
  params' ⊆ params /\
  (forall k, is_Some (notifications !! k) -> is_Some (notifications' !! k)) /\
  (forall k, ~ In k (inputNames (walkedFields dataType)) ->
             notifications' !! k = notifications !! k).
Proof.
  intros W H. rewrite (addInputErrors_walked dataType W) in H.
  destruct (namedLoop_frame _ _ _ _ _ H) as [A [B C]]. repeat split.
  - apply map_subseteq_spec. intros k v E. rewrite A in E.
    destruct (namedIn k (walkedFields dataType)); [discriminate E | exact E].
  - exact C.
  - intros k K. apply B. now apply namedIn_false.
Qed.

Lemma addInputErrors_frame_witness :
  (delete "Name" nameAndExtra : inputParams) ⊆ nameAndExtra /\
  (forall k, is_Some ((∅ : MessageMap) !! k) -> is_Some ((∅ : MessageMap) !! k)) /\
  (forall k, ~ In k (inputNames (walkedFields personType)) ->
             (∅ : MessageMap) !! k = (∅ : MessageMap) !! k).
Proof.
  apply (addInputErrors_frame personType nameAndExtra (delete "Name" nameAndExtra) ∅ ∅).
  - reflexivity.
  - vm_compute. reflexivity.
Defined.

Lemma checkInput_accepted name fieldType v (n : MessageMap) :
  accepted fieldType v = true -> checkInput name fieldType v n = Ok n.
Proof.
  destruct fieldType as [[validate|] [receive|] convertibleFrom fields]; cbn.
  1,2: now destruct (validate v).
  - now destruct (receive v).
  - destruct v as [|tn repr]; [discriminate|]. now intros ->.
Qed.

Lemma namedLoop_accepted l :
  forall (p : inputParams) (n : MessageMap),
    List.NoDup (inputNames l) ->
    (forall f t, In (f, t) l -> exists v, p !! in_name f = Some v /\ accepted t v = true) ->
    exists p' : inputParams,
      namedLoop l (p, n) = Ok (p', n) /\
      forall k, p' !! k = if namedIn k l then None else p !! k.
Proof.
  induction l as [|[f t] l IH]; intros p n D H.
  - exists p. split; reflexivity.
  - cbn in D. apply List.NoDup_cons_iff in D. destruct D as [N D].
    destruct (H f t (or_introl eq_refl)) as [v [E A]].
    cbn [namedLoop]. unfold namedField. rewrite E, (checkInput_accepted _ _ _ _ A).
    destruct (IH (delete (in_name f) p) n D) as [p' [L P]].
    { intros f' t' I. destruct (H f' t' (or_intror I)) as [v' [E' A']].
      exists v'. split; [|exact A'].
      rewrite lookup_delete_ne; [exact E'|].
      intros Q. apply N. unfold inputNames. apply in_map_iff.
      exists (f', t'). split; [now rewrite Q | exact I]. }
    exists p'. split; [exact L|]. intros k. rewrite P, namedIn_cons.
    destruct (String.eqb (in_name f) k) eqn:K; cbn [orb].
    + apply String.eqb_eq in K. subst k.
      destruct (namedIn (in_name f) l); [reflexivity | apply lookup_delete_eq].
    + apply String.eqb_neq in K.
      destruct (namedIn k l); [reflexivity | now apply lookup_delete_ne].
Qed.

(** X12. Input that fits adds no message.  When the input names of
    the walked fields are pairwise different, every walked field has an
    input that passes its check, and every input is named after a
    walked field, the notifications come back exactly as they went
    in. *)
Theorem fitting_input_adds_no_message dataType (params : inputParams)
    (notifications : MessageMap) :
  walkable dataType = true ->
  List.NoDup (inputNames (walkedFields dataType)) ->
  (forall f t, In (f, t) (walkedFields dataType) ->
               exists v, params !! in_name f = Some v /\ accepted t v = true) ->
  (forall k, is_Some (params !! k) -> In k (inputNames (walkedFields dataType))) ->
  RespondWithInputErrors dataType params notifications = Ok notifications.
Proof.
  intros W D H U. unfold RespondWithInputErrors.
  rewrite (addInputErrors_walked dataType W).
  destruct (namedLoop_accepted _ params notifications D H) as [p' [L P]].
  rewrite L. f_equal.
  assert (Z : p' = ∅).
  { apply map_empty. intros k. rewrite P.
    destruct (namedIn k (walkedFields dataType)) eqn:K; [reflexivity|].
    destruct (params !! k) eqn:E; [|reflexivity].
    apply namedIn_false in K. exfalso. apply K, U. now rewrite E. }
  rewrite Z. apply map_fold_empty.
Qed.

Lemma fitting_input_adds_no_message_witness :
  RespondWithInputErrors personType nameAndAge ∅ = Ok ∅.
Proof.
  apply (fitting_input_adds_no_message personType nameAndAge ∅).
  - reflexivity.
  - cbn. repeat constructor; cbn; intuition discriminate.
  - intros f t [E|[E|[]]]; injection E as <- <-; eexists; split; reflexivity.
  - intros k [v E]. unfold nameAndAge in E.
    apply lookup_insert_Some in E as [[<- _]|[_ E]]; [cbn; tauto|].
    apply lookup_insert_Some in E as [[<- _]|[_ E]]; [cbn; tauto|].
    rewrite lookup_empty in E. discriminate E.
Defined.

(** X13. An input name that two walked fields share (an outer field
    and a field of an embedded struct, say) cannot be satisfied: the
    first of the two fields consumes the input, and when the later one
    is required the name ends with "No input for required field",
    whether the input was supplied or not. *)
Theorem shared_input_name_is_reported_missing dataType (params : inputParams)
    (notifications : MessageMap) earlier f t later :
  walkable dataType = true ->
  walkedFields dataType = earlier ++ (f, t) :: later ->
  In (in_name f) (inputNames earlier) ->
  isOptional (in_args f) = false ->
  (forall k, params !! k <> Some InNil) ->
  exists final : MessageMap,
    RespondWithInputErrors dataType params notifications = Ok final /\
    final !! in_name f = Some "No input for required field".
Proof.
  intros W S I O H. unfold RespondWithInputErrors.
  rewrite (addInputErrors_walked dataType W), S, namedLoop_app.
  destruct (namedLoop_spec earlier params notifications H) as [p1 [n1 [L1 [A1 _]]]].
  rewrite L1.
  assert (E1 : p1 !! in_name f = None).
  { rewrite A1. apply namedIn_inputNames in I. now rewrite I. }
  destruct (namedLoop_spec ((f, t) :: later) p1 n1) as [p2 [n2 [L2 [A2 B2]]]].
  { intros k K. rewrite A1 in K.
    destruct (namedIn k earlier); [discriminate K | exact (H _ K)]. }
  rewrite L2. eexists. split; [reflexivity|].
  rewrite leftover_lookup, A2, namedIn_cons, String.eqb_refl. cbn [orb].
  rewrite (B2 _ E1), requiredIn_cons, String.eqb_refl, O. reflexivity.
Qed.

Lemma shared_input_name_is_reported_missing_witness :
  exists final : MessageMap,
    RespondWithInputErrors nameTwiceType nameOnly ∅ = Ok final /\
    final !! "Name" = Some "No input for required field".
Proof.
  apply (shared_input_name_is_reported_missing nameTwiceType nameOnly ∅
           [(mkInputField "Name" [] false, stringType)]
           (mkInputField "Name" [] false) stringType []).
  - reflexivity.
  - reflexivity.
  - cbn. tauto.
  - reflexivity.
  - intros k E. unfold nameOnly in E.
    apply lookup_insert_Some in E as [[_ E]|[_ E]]; [discriminate E|].
    rewrite lookup_empty in E. discriminate E.
Defined.

(** X14. A nil input (a JSON null) for a field that is checked by
    convertibility makes the walk panic: no notification is produced
    at all.  (With pairwise different input names, so that no earlier
    field consumes the input.) *)
Theorem nil_input_panics dataType (params : inputParams) (notifications : MessageMap) f t :
  walkable dataType = true ->
  List.NoDup (inputNames (walkedFields dataType)) ->
  In (f, t) (walkedFields dataType) ->
  checkedByConversion t = true ->
  params !! in_name f = Some InNil ->
  exists msg,
    addInputErrors dataType (params, notifications) = Panic msg /\
    RespondWithInputErrors dataType params notifications = Panic msg.
Proof.
  intros W D I C E.
  assert (P : exists msg, addInputErrors dataType (params, notifications) = Panic msg).
  { rewrite (addInputErrors_walked dataType W).
    apply in_split in I as [l1 [l2 S]]. rewrite S in D |- *.
    rewrite namedLoop_app.
    destruct (namedLoop l1 (params, notifications)) as [[p1 n1]|msg] eqn:L1; [|eauto].
    destruct (namedLoop_frame _ _ _ _ _ L1) as [A1 _].
    assert (N : namedIn (in_name f) l1 = false).
    { apply namedIn_false. unfold inputNames in D. rewrite map_app in D. cbn in D.
      apply List.NoDup_remove_2 in D. intros Q. apply D. apply in_or_app. now left. }
    cbn [namedLoop]. unfold namedField. rewrite (A1 (in_name f)), N, E.
    destruct t as [[v|] [r|] c fs]; try discriminate C. cbn. eauto. }
  destruct P as [msg P]. exists msg. split; [exact P|].
  unfold RespondWithInputErrors. now rewrite P.
Qed.

Lemma nil_input_panics_witness :
  exists msg,
    addInputErrors personType (nameNull, ∅) = Panic msg /\
    RespondWithInputErrors personType nameNull ∅ = Panic msg.
Proof.
  apply (nil_input_panics personType nameNull ∅ (mkInputField "Name" [] false) stringType).
  - reflexivity.
  - cbn. repeat constructor; cbn; intuition discriminate.
  - cbn. tauto.
  - reflexivity.
  - reflexivity.
Defined.

(** * The codec's content types *)

Lemma IndexRune_split s r i :
  codecs.IndexRune s r = Some i ->
  exists rest, s = String.append (String.substring 0 i s) (String r rest).
Proof.
  revert i. induction s as [|b s IH]; intros i H; [discriminate H|].
  cbn in H. destruct (Ascii.eqb b r) eqn:E.
  - injection H as <-. apply Ascii.eqb_eq in E. subst b. now exists s.
  - destruct (codecs.IndexRune s r) as [j|]; [|discriminate H].
    injection H as <-. destruct (IH j eq_refl) as [rest R].
    exists rest.
    change (String b s = String b (String.append (String.substring 0 j s) (String r rest))).
    f_equal. exact R.
Qed.

Lemma append_nil s : String.append "" s = s.
Proof. reflexivity. Qed.

Lemma append_cons x a s : String.append (String x a) s = String x (String.append a s).
Proof. reflexivity. Qed.

Lemma IndexRune_append a r b :
  codecs.IndexRune a r = None ->
  codecs.IndexRune (String.append a (String r b)) r = Some (String.length a) /\
  String.substring 0 (String.length a) (String.append a (String r b)) = a.
Proof.
  induction a as [|x a IH]; intros H.
  - rewrite append_nil. cbn [codecs.IndexRune String.length String.substring].
    now rewrite Ascii.eqb_refl.
  - rewrite append_cons. cbn [codecs.IndexRune String.length String.substring] in *.
    destruct (Ascii.eqb x r); [discriminate H|].
    destruct (codecs.IndexRune a r); [discriminate H|].
    destruct (IH eq_refl) as [I S]. now rewrite I, S.
Qed.

Lemma substring_whole s : String.substring 0 (String.length s) s = s.
Proof.
  induction s as [|b s IH]; cbn [String.length String.substring];
    [reflexivity | now rewrite IH].
Qed.

Lemma dropPrefix_append a b : dropPrefix (String.length a) (String.append a b) = b.
Proof.
  unfold dropPrefix. induction a as [|x a IH].
  - rewrite append_nil. cbn [String.length]. rewrite Nat.sub_0_r. apply substring_whole.
  - rewrite append_cons. cbn [String.length String.substring Nat.sub]. exact IH.
Qed.

Lemma append_assoc_string a b c :
  String.append (String.append a b) c = String.append a (String.append b c).
Proof.
  induction a as [|x a IH]; [reflexivity|]. rewrite !append_cons. now rewrite IH.
Qed.

Lemma length_append_string a b :
  String.length (String.append a b) = String.length a + String.length b.
Proof.
  induction a as [|x a IH]; [reflexivity|].
  rewrite append_cons. cbn [String.length Nat.add]. now rewrite IH.
Qed.

(** X15. The codec supports exactly its own mime type and that mime
    type followed by [+] and any suffix. *)
Theorem ContentTypeSupported_exactly contentType :
  codecs.ContentTypeSupported contentType = true <->
  contentType = codecs.BasicMimeType \/
  exists suffix,
    contentType = String.append codecs.BasicMimeType (String "+" suffix).
Proof.
  assert (N : codecs.IndexRune codecs.BasicMimeType "+" = None) by reflexivity.
  unfold codecs.ContentTypeSupported, codecs.ContentType. split.
  - destruct (codecs.IndexRune contentType "+") as [i|] eqn:I; intros H;
      apply String.eqb_eq in H.
    + right. destruct (IndexRune_split _ _ _ I) as [rest R].
      exists rest. now rewrite <- H.
    + now left.
  - intros [->|[suffix ->]].
    + rewrite N. apply String.eqb_refl.
    + destruct (IndexRune_append codecs.BasicMimeType "+" suffix N) as [I S].
      rewrite I, S. apply String.eqb_refl.
Qed.

(** X16. The codec that encodes the wrapped response.  For a matched
    type made of the codec's mime type, [+] and a suffix it is
    [application/] followed by the suffix; so for every content type
    the codec supports the choice returns: the suffix's type, or
    [application/json] without a suffix.  A matched type that holds a
    [+] but is not longer than the codec's own mime type makes the
    slice panic. *)
Theorem baseType_of_matched_type :
  (forall suffix,
      codecs.baseType (Some (String.append codecs.BasicMimeType (String "+" suffix)))
      = Ok (String.append "application/" suffix)) /\
  (forall contentType,
      codecs.ContentTypeSupported contentType = true ->
      exists base, codecs.baseType (Some contentType) = Ok base) /\
  (forall matchedType,
      codecs.ContainsRune matchedType "+" = true ->
      String.length matchedType <= String.length codecs.BasicMimeType ->
      codecs.baseType (Some matchedType) = Panic "runtime error: slice bounds out of range").
Proof.
  assert (N : codecs.IndexRune codecs.BasicMimeType "+" = None) by reflexivity.
  assert (A : forall suffix,
             codecs.baseType (Some (String.append codecs.BasicMimeType (String "+" suffix)))
             = Ok (String.append "application/" suffix)).
  { intros suffix. unfold codecs.baseType, codecs.ContainsRune, codecs.ContentType.
    destruct (IndexRune_append codecs.BasicMimeType "+" suffix N) as [I _]. rewrite I.
    assert (L : String.length codecs.BasicMimeType + 1
                = String.length (String.append codecs.BasicMimeType "+")) by reflexivity.
    rewrite L.
    change (String "+" suffix) with (String.append "+" suffix).
    rewrite <- append_assoc_string, dropPrefix_append.
    rewrite (length_append_string _ suffix).
    replace (Nat.leb _ _) with true by (symmetry; apply Nat.leb_le; lia).
    reflexivity. }
  split; [exact A|]. split.
  - intros contentType H.
    assert (S : contentType = codecs.BasicMimeType \/
                exists suffix,
                  contentType = String.append codecs.BasicMimeType (String "+" suffix)).
    { unfold codecs.ContentTypeSupported, codecs.ContentType in H.
      destruct (codecs.IndexRune contentType "+") as [i|] eqn:I;
        apply String.eqb_eq in H.
      - right. destruct (IndexRune_split _ _ _ I) as [rest R].
        exists rest. now rewrite <- H.
      - now left. }
    destruct S as [->|[suffix ->]].
    + eexists. reflexivity.
    + eexists. apply A.
  - intros matchedType C L. unfold codecs.baseType, codecs.ContentType. rewrite C.
    replace (Nat.leb _ _) with false; [reflexivity|].
    symmetry. apply Nat.leb_gt. lia.
Qed.

Lemma baseType_of_matched_type_witness :
  (exists base,
      codecs.baseType (Some "application/vnd.radiobox.encapsulated+json") = Ok base) /\
  codecs.baseType (Some "a+b") = Panic "runtime error: slice bounds out of range".
Proof.
  split.
  - apply (proj1 (proj2 baseType_of_matched_type)). reflexivity.
  - apply (proj2 (proj2 baseType_of_matched_type)).
    + reflexivity.
    + vm_compute. repeat constructor.
Defined.

(** * Collisions among embedded fields *)

(** X17. A key that an embedded field brings in, and that the response
    does not hold yet when the embedded field is reached, keeps the
    embedded field's value to the end unless one of the struct's own
    named fields declared later has that key: an embedded field
    declared later never replaces it (among embedded fields the first
    declared wins). *)
Theorem earlier_embedded_field_wins tn pre ft fv post o c out mid r em k x :
  Anonymous ft = true ->
  result (createNullableDbResponse tn (pre ++ (ft, fv) :: post)) = Ok None ->
  result (structLoop (fun v => CreateResponse v [ArgOptions o; ArgConstructor c])
            (fun v o' => createResponseValue v o' c) pre o []) = Ok mid ->
  alist_lookup k mid = None ->
  result (CreateResponse fv [ArgOptions o; ArgConstructor c]) = Ok r ->
  result (assertObjxMap r) = Ok em ->
  alist_lookup k em = Some x ->
  Forall (fun p => setsKey k (fst p) = false) post ->
  result (createStructResponse tn (pre ++ (ft, fv) :: post) o c) = Ok out ->
  exists response, out = objxMapValue response /\ alist_lookup k response = Some x.
Proof.
  intros A U M K R E X F H. unfold createStructResponse, structBody in H.
  rewrite (bindM_Ok_intro _ _ _ U) in H.
  apply bindM_Ok in H as [response [L H]]. cbn in H. injection H as <-.
  exists response. split; [reflexivity|].
  apply structLoop_app in L as [mid' [M' L]].
  assert (mid' = mid) by congruence. subst mid'.
  cbn [structLoop] in L. rewrite A in L.
  apply bindM_Ok in L as [u [_ L]]. apply bindM_Ok in L as [r' [R' L]].
  assert (r' = r) by congruence. subst r'.
  apply bindM_Ok in L as [em' [E' L]].
  assert (em' = em) by congruence. subst em'.
  eapply structLoop_keeps; [exact F | | exact L].
  now rewrite mergeEmbedded_lookup, K.
Qed.

Lemma earlier_embedded_field_wins_witness :
  exists response,
    objxMapValue [("x", intValue 1); ("y", intValue 10); ("z", intValue 30)]
    = objxMapValue response /\
    alist_lookup "y" response = Some (intValue 10).
Proof.
  apply (earlier_embedded_field_wins "Outer" [] (embedded "Base") baseValue
           [(embedded "Extra", extraValue)] None None _ []
           (objxMapValue [("x", intValue 1); ("y", intValue 10)])
           [("x", intValue 1); ("y", intValue 10)] "y" (intValue 10));
    try reflexivity.
  repeat constructor.
Defined.

(** * Plain data always renders *)

Lemma createResponseValue_returns v c :
  (forall isSubResponse, exists out, result (createResponse v isSubResponse None c) = Ok out) ->
  exists r, result (createResponseValue v None c) = Ok r.
Proof.
  intros G. unfold createResponseValue, dispatchValue.
  change (fullMode None) with false. cbn [negb].
  destruct (ResponseValue (methodsOf v)); [cbn; eauto|].
  destruct (String_ (methodsOf v)); [cbn; eauto|].
  destruct (Error_ (methodsOf v)); [cbn; eauto|]. apply G.
Qed.

Lemma structLoop_named_returns renderEmbedded renderValue fields response :
  Forall (fun p => Anonymous (fst p) = false /\
                   exists r, result (renderValue (snd p) None) = Ok r) fields ->
  exists final, result (structLoop renderEmbedded renderValue fields None response) = Ok final.
Proof.
  intros F. revert response.
  induction F as [|[ft fv] rest [A [r E]] F IH]; intros response; cbn [structLoop].
  - cbn. eauto.
  - cbn [fst snd] in A, E. rewrite A.
    destruct (exported (Name ft)); [|apply IH].
    destruct (String.eqb (ResponseTag ft) "-"); [apply IH|].
    change (structSubOptions None (ResponseTag ft)) with (@ret options None).
    rewrite bindM_ret, (bindM_Ok_intro _ _ _ E). apply IH.
Qed.

Lemma sliceLoop_returns renderValue elems response :
  Forall (fun e => exists r, result (renderValue e None) = Ok r) elems ->
  exists final, result (sliceLoop renderValue elems None response) = Ok final.
Proof.
  intros F. revert response.
  induction F as [|e rest [r E] F IH]; intros response; cbn [sliceLoop].
  - cbn. eauto.
  - rewrite (bindM_Ok_intro _ _ _ E). apply IH.
Qed.

Lemma plain_data_switch_returns tn ms body :
  plainData (Val tn ms body) = true ->
  match body with
  | KStruct fields =>
      Forall (fun p => forall isSub c,
                  exists out, result (createResponse (snd p) isSub None c) = Ok out) fields
  | KSlice elems =>
      Forall (fun e => forall isSub c,
                  exists out, result (createResponse e isSub None c) = Ok out) elems
  | KMap _ entries =>
      Forall (fun p => forall isSub c,
                  exists out, result (createResponse (snd p) isSub None c) = Ok out) entries
  | _ => True
  end ->
  forall responseData isSubResponse c,
    exists out,
      result (kindSwitch responseData (Val tn ms body) isSubResponse None c) = Ok out.
Proof.
  intros P B rd isSub c. cbn [plainData] in P.
  destruct (LazyLoad ms); [discriminate P|]. destruct (ResponseObject ms); [discriminate P|].
  destruct (ResponseValue ms); [discriminate P|]. destruct (String_ ms); [discriminate P|].
  destruct (Error_ ms); [discriminate P|].
  destruct body as [b|z|str|fields|elems|mt entries|target|]; cbn [kindSwitch];
    try (cbn; eauto; fail).
  - apply andb_prop in P as [N P]. apply negb_true_iff in N.
    unfold createStructResponse, structBody, createNullableDbResponse. rewrite N.
    rewrite bindM_ret.
    destruct (structLoop_named_returns
                (fun v => CreateResponse v [ArgOptions None; ArgConstructor c])
                (fun v o' => createResponseValue v o' c) fields []) as [final L].
    { rewrite forallb_forall in P. rewrite List.Forall_forall in B |- *.
      intros p I. specialize (P p I). apply andb_prop in P as [A _].
      apply andb_prop in A as [A _].
      apply negb_true_iff in A. split; [exact A|].
      apply createResponseValue_returns. intros s. apply (B p I). }
    rewrite (bindM_Ok_intro _ _ _ L). cbn. eauto.
  - unfold createSliceResponse, sliceBody.
    destruct (sliceLoop_returns (fun v o' => createResponseValue v o' c) elems [])
      as [final L].
    { rewrite List.Forall_forall in B |- *. intros e I.
      apply createResponseValue_returns. intros s. apply (B e I). }
    assert (S : result (do response <~ sliceLoop (fun v o' => createResponseValue v o' c)
                                         elems None [] in
                        ret (Val "[]interface {}" noMethods (KSlice response)))
                = Ok (Val "[]interface {}" noMethods (KSlice final))).
    { now rewrite (bindM_Ok_intro _ _ _ L). }
    rewrite (bindM_Ok_intro _ _ _ S). cbn. eauto.
  - apply andb_prop in P as [P _]. apply andb_prop in P as [KS EI].
    destruct (elem mt) eqn:EM; [|discriminate EI].
    unfold createMapResponse, mapBody.
    destruct (mapLoop_interface_total (fun v o' => createResponseValue v o' c)
                mt entries [] KS EM) as [final L].
    { rewrite List.Forall_forall in B |- *. intros p I.
      apply createResponseValue_returns. intros s. apply (B p I). }
    rewrite (bindM_Ok_intro _ _ _ L). cbn. eauto.
Qed.

Lemma plain_data_returns v :
  plainData v = true ->
  (forall isSubResponse c,
      exists out, result (createResponse v isSubResponse None c) = Ok out) /\
  (forall responseData isSubResponse c,
      exists out, result (kindSwitch responseData v isSubResponse None c) = Ok out).
Proof.
  induction v as [|tn ms body IHl IHr IHb] using value_induction; intros Pl.
  - split; intros; cbn; eauto.
  - assert (K : forall responseData isSubResponse c,
               exists out,
                 result (kindSwitch responseData (Val tn ms body) isSubResponse None c)
                 = Ok out).
    { apply (plain_data_switch_returns tn ms body Pl).
      cbn [plainData] in Pl.
      destruct (LazyLoad ms); [discriminate Pl|].
      destruct (ResponseObject ms); [discriminate Pl|].
      destruct (ResponseValue ms); [discriminate Pl|].
      destruct (String_ ms); [discriminate Pl|].
      destruct (Error_ ms); [discriminate Pl|].
      destruct body as [b|z|str|fields|elems|mt entries|target|]; try exact I.
      - apply andb_prop in Pl as [_ Pl]. rewrite forallb_forall in Pl.
        rewrite List.Forall_forall in IHb |- *. intros p In.
        specialize (Pl p In). apply andb_prop in Pl as [_ Pl]. apply (IHb p In Pl).
      - rewrite forallb_forall in Pl.
        rewrite List.Forall_forall in IHb |- *. intros e In. apply (IHb e In (Pl e In)).
      - apply andb_prop in Pl as [_ Pl]. rewrite forallb_forall in Pl.
        rewrite List.Forall_forall in IHb |- *. intros p In. apply (IHb p In (Pl p In)). }
    split; [|exact K].
    intros isSub c. rewrite createResponse_eq.
    unfold lazyLoadEvents, responseObjectEvents, loadedValue, substituted.
    cbn [plainData] in Pl. cbn [methodsOf].
    destruct (LazyLoad ms); [discriminate Pl|]. cbn [methodsOf].
    destruct (ResponseObject ms); [discriminate Pl|]. rewrite !bindM_ret.
    destruct (ResponseValue ms); [discriminate Pl|].
    destruct (String_ ms); [discriminate Pl|].
    destruct (Error_ ms); [discriminate Pl|].
    destruct body as [b|z|str|fields|elems|mt entries|[target|]|]; try apply K.
    cbn [derefOnce]. apply (IHb Pl).
Qed.

(** X18. Plain data always renders without options.  A value built
    from scalars, slices, [map[string]interface{}] maps, pointers and
    structs with named fields only, where no type has any of the
    methods [LazyLoad], [ResponseObject], [ResponseValue], [String] or
    [Error], no struct type is named [Null...] and every field name
    starts with an ASCII byte, is rendered by CreateResponse without a
    panic, with no option list or with nil options and any
    constructor. *)
Theorem plain_data_always_renders data c :
  plainData data = true ->
  (exists out, result (CreateResponse data []) = Ok out) /\
  (exists out, result (CreateResponse data [ArgOptions None; ArgConstructor c]) = Ok out).
Proof.
  intros P. destruct (plain_data_returns data P) as [G _].
  rewrite CreateResponse_no_options, CreateResponse_options_constructor.
  unfold errorShortCircuit.
  destruct (Error_ (methodsOf data)); [cbn; eauto|]. split; apply G.
Qed.

Lemma plain_data_always_renders_witness :
  (exists out, result (CreateResponse plainSample []) = Ok out) /\
  (exists out,
      result (CreateResponse plainSample [ArgOptions None; ArgConstructor None]) = Ok out).
Proof. apply (plain_data_always_renders plainSample None). reflexivity. Defined.

(** * Marshal *)

Lemma joinsString_ret opts joinsStr :
  result (marshal.joinsString opts) = Ok joinsStr -> marshal.joinsString opts = ret joinsStr.
Proof.
  unfold marshal.joinsString.
  destruct (alist_lookup "joins" opts) as [[s|p|]|].
  - intros H. now injection H as <-.
  - discriminate.
  - discriminate.
  - destruct (alist_lookup "input_params" opts) as [[s|p|]|]; try discriminate.
    intros H. now injection H as <-.
Qed.

Section MarshalFacts.
Variable FromJSON : string -> option (list (string * optval)).
Variable construct : list (string * marshal.optionValue) -> value -> value -> value.
Variable GetCodec :
  string -> option (value -> list (string * marshal.optionValue) -> marshal.marshalled).

(** X19. Marshal of an object that satisfies the error capability,
    under options whose ["protocol"] and ["host"] are strings (the
    constructor's two assertions pass): whatever the joins, the object
    is not rendered; its message text is wrapped by the constructor
    and the wrapped message is what the base codec encodes. *)
Theorem Marshal_wraps_error_message object opts msg joinsStr baseType baseCodec
    protocol host :
  Error_ (methodsOf object) = Some msg ->
  alist_lookup "protocol" opts = Some (marshal.AString protocol) ->
  alist_lookup "host" opts = Some (marshal.AString host) ->
  result (marshal.joinsString opts) = Ok joinsStr ->
  codecs.baseType (marshal.matchedType opts) = Ok baseType ->
  GetCodec baseType = Some baseCodec ->
  marshal.Marshal FromJSON construct GetCodec object opts
  = mkM [EvError object; EvConstructor (goString msg) object]
        (Ok (baseCodec (construct opts (goString msg) object) opts)).
Proof.
  intros E _ _ J B G. unfold marshal.Marshal.
  rewrite (joinsString_ret _ _ J), bindM_ret.
  unfold CreateResponse, errorShortCircuit. rewrite E.
  unfold marshal.liftOutcome. rewrite B. cbn. now rewrite G.
Qed.

(** X20. Marshal without joins (an empty joins string, or one that
    [FromJSON] rejects): the object is rendered as by CreateResponse
    with no options at all, so the constructor is applied once, to the
    whole rendered object. *)
Theorem Marshal_without_joins object opts joinsStr :
  result (marshal.joinsString opts) = Ok joinsStr ->
  joinsStr = "" \/ FromJSON joinsStr = None ->
  marshal.Marshal FromJSON construct GetCodec object opts
  = do responseObject <~ CreateResponse object [] in
    do response <~ callConstructor (Some (construct opts)) responseObject object in
    do baseType <~ marshal.liftOutcome (codecs.baseType (marshal.matchedType opts)) in
    match GetCodec baseType with
    | Some baseCodec => ret (baseCodec response opts)
    | None => ret (marshal.NoCodec baseType)
    end.
Proof.
  intros J N. unfold marshal.Marshal.
  rewrite (joinsString_ret _ _ J), bindM_ret.
  assert (O : marshal.joinsOptions FromJSON joinsStr = None).
  { unfold marshal.joinsOptions. destruct N as [->|N]; [reflexivity|].
    now destruct (String.eqb joinsStr ""). }
  rewrite O, CreateResponse_options_constructor, CreateResponse_no_options.
  now rewrite (proj1 (constructor_free_everywhere object) false (Some (construct opts)) None).
Qed.
End MarshalFacts.

Lemma Marshal_wraps_error_message_witness :
  marshal.Marshal (fun _ => None) (fun _ r _ => r) jsonOnly notFound noJoins
  = mkM [EvError notFound; EvConstructor (goString "not found") notFound]
        (Ok (marshal.Bytes "{}")).
Proof.
  apply (Marshal_wraps_error_message (fun _ => None) (fun _ r _ => r) jsonOnly notFound noJoins
           "not found" "" "application/json" (fun _ _ => marshal.Bytes "{}")
           "http" "example.org");
    reflexivity.
Defined.

Lemma Marshal_without_joins_witness :
  marshal.Marshal (fun _ => None) (fun _ r _ => r) jsonOnly plainSample noJoins
  = do responseObject <~ CreateResponse plainSample [] in
    do response <~ callConstructor (Some (fun r _ => r)) responseObject plainSample in
    do baseType <~ marshal.liftOutcome (codecs.baseType (marshal.matchedType noJoins)) in
    match jsonOnly baseType with
    | Some baseCodec => ret (baseCodec response noJoins)
    | None => ret (marshal.NoCodec baseType)
    end.
Proof.
  apply (Marshal_without_joins (fun _ => None) (fun _ r _ => r) jsonOnly plainSample noJoins "").
  - reflexivity.
  - now left.
Defined.

Lemma ContentTypeSupported_exactly_witness :
  codecs.ContentTypeSupported "application/vnd.radiobox.encapsulated+json" = true.
Proof.
  apply (proj2 (ContentTypeSupported_exactly "application/vnd.radiobox.encapsulated+json")).
  right. exists "json". reflexivity.
Defined.
